(** * ijcringbuffer.h: a continuous ring buffer for variable sized data

    A shallow embedding of [src/ijcringbuffer.h] and the verification of
    its cursor arithmetic.

    - [unsigned] values are integers in [0, 2^32); every C operation on
      them is written with its wrap-around ([uadd], [usub]).
    - The storage pointer [data] and the source pointer [indata] are
      memories indexed by the byte offset from the pointer; a [memcpy]
      past the end of the storage is seen as a write at an offset that
      is not below [size].
    - [IJCRB_assert] does not change what a function computes: the
      [checked] monad runs the function as a build without assertions
      does and records, next to the value, whether every assertion met
      on the way held (an assertion-enabled build aborts exactly when the
      record is [false]).
    - The labels of [ijcringbuffer_produce] are definitions of their own
      ([write_to_front], [check_front]).

    The cursors of a buffer in regular use (capacity at most 2^29, no
    [produce] of zero bytes) are described by a [layout]; the functions
    are proved to compute what the layout says. Outside regular use the
    code goes astray: a [produce] of zero bytes can split the buffer
    around an empty front run, and with a capacity of 2^30 or 2^31 the
    test of the split state fails. *)
From Stdlib Require Import ZArith Lia List Bool Znumtheory.
From Stdlib.Strings Require Import Byte.
Import ListNotations.
Local Open Scope Z_scope.

(** * Part I: the embedding *)

(** ** Unsigned 32-bit arithmetic *)

Definition modulus : Z := 2 ^ 32.

Definition wrap (x : Z) : Z := x mod modulus.

Definition uadd (a b : Z) : Z := wrap (a + b).

Definition usub (a b : Z) : Z := wrap (a - b).

(** C truth value of an unsigned. *)
Definition truthy (x : Z) : bool := negb (x =? 0).

(** ** Memory *)

Definition memory : Type := Z -> byte.

(** [IJCRB_memcpy (dst + off) src n], seen from [dst]. *)
Definition IJCRB_memcpy (dst : memory) (off : Z) (src : memory) (n : Z)
  : memory :=
  fun i => if (off <=? i) && (i <? off + n) then src (i - off) else dst i.

(** The [n] bytes found at [p + off]. *)
Definition bytes_at (p : memory) (off n : Z) : list byte :=
  map (fun i => p (off + Z.of_nat i)) (seq 0 (Z.to_nat n)).

(** ** Assertions *)

Definition checked (A : Type) : Type := (A * bool)%type.

Definition ret {A : Type} (a : A) : checked A := (a, true).

Definition bind {A B : Type} (m : checked A) (f : A -> checked B) : checked B :=
  let r := f (fst m) in (fst r, snd m && snd r).

Definition IJCRB_assert (c : bool) : checked unit := (tt, c).

Definition value {A : Type} (m : checked A) : A := fst m.

Definition asserts_ok {A : Type} (m : checked A) : bool := snd m.

Notation "x <- m ;; k" := (bind m (fun x => k))
  (at level 61, m at next level, right associativity).

Notation "m ;;; k" := (bind m (fun _ => k))
  (at level 61, right associativity).

(** ** The structure *)

Record ijcringbuffer : Type := mk_ijcringbuffer {
  data : memory;
  size : Z;
  mask : Z;
  read_cursor : Z;
  write_cursor : Z;
  wrap_cursor : Z
}.

Definition set_data (self : ijcringbuffer) (d : memory) : ijcringbuffer :=
  mk_ijcringbuffer d (size self) (mask self)
    (read_cursor self) (write_cursor self) (wrap_cursor self).

Definition set_read_cursor (self : ijcringbuffer) (c : Z) : ijcringbuffer :=
  mk_ijcringbuffer (data self) (size self) (mask self)
    c (write_cursor self) (wrap_cursor self).

Definition set_write_cursor (self : ijcringbuffer) (c : Z) : ijcringbuffer :=
  mk_ijcringbuffer (data self) (size self) (mask self)
    (read_cursor self) c (wrap_cursor self).

Definition set_wrap_cursor (self : ijcringbuffer) (c : Z) : ijcringbuffer :=
  mk_ijcringbuffer (data self) (size self) (mask self)
    (read_cursor self) (write_cursor self) c.

(** ** The functions *)

Definition ijcringbuffer__difference (a b : Z) : Z :=
  let ab := usub a b in
  let ba := usub b a in
  if ab >? ba then ba else ab.

(** [ijcringbuffer_init] sets every field of [*self]. *)
Definition ijcringbuffer_init (d : memory) (data_size : Z)
  : checked ijcringbuffer :=
  IJCRB_assert ((data_size >? 0)
                && negb (truthy (Z.land data_size (usub data_size 1)))) ;;;
  ret (mk_ijcringbuffer d data_size (usub data_size 1) 0 0 0).

Definition ijcringbuffer_reset (self : ijcringbuffer) : ijcringbuffer :=
  mk_ijcringbuffer (data self) (size self) (mask self) 0 0 0.

Definition ijcringbuffer__is_split (self : ijcringbuffer) : bool :=
  ijcringbuffer__difference (read_cursor self) (write_cursor self) >? size self.

(** [peek] returns the offset [peek_rc] of the pointer [self->data + peek_rc],
    paired with the structure as the call leaves it. *)
Definition ijcringbuffer_peek (self : ijcringbuffer) : Z * ijcringbuffer :=
  let peek_rc :=
    if (read_cursor self =? wrap_cursor self) && ijcringbuffer__is_split self
    then 0
    else Z.land (read_cursor self) (mask self) in
  (peek_rc, self).

Definition ijcringbuffer__consumeable_size
    (self : ijcringbuffer) (continuous : Z) : checked Z :=
  cs <- (if ijcringbuffer__is_split self then
           if read_cursor self =? wrap_cursor self then
             let masked_write := Z.land (write_cursor self) (mask self) in
             ret (if truthy masked_write then masked_write else size self)
           else
             IJCRB_assert
               (size self >?
                ijcringbuffer__difference (wrap_cursor self)
                                          (read_cursor self)) ;;;
             ret (uadd
                    (Z.land (usub (wrap_cursor self) (read_cursor self))
                            (mask self))
                    (if truthy continuous then 0
                     else Z.land (write_cursor self) (mask self)))
         else
           ret (usub (write_cursor self) (read_cursor self))) ;;
  IJCRB_assert (size self >=? cs) ;;;
  ret cs.

Definition ijcringbuffer_consumeable_size_continuous (self : ijcringbuffer)
  : checked Z :=
  ijcringbuffer__consumeable_size self 1.

Definition ijcringbuffer_consumeable_size (self : ijcringbuffer) : checked Z :=
  ijcringbuffer__consumeable_size self 0.

Definition ijcringbuffer_consume (self : ijcringbuffer) (n : Z)
  : checked ijcringbuffer :=
  avail <- ijcringbuffer_consumeable_size_continuous self ;;
  IJCRB_assert (avail >=? n) ;;;
  if (read_cursor self =? wrap_cursor self) && ijcringbuffer__is_split self then
    ret (set_read_cursor self
           (uadd (read_cursor self)
              (uadd (uadd (size self)
                          (usub (size self)
                                (Z.land (read_cursor self) (mask self))))
                    n)))
  else
    ret (set_read_cursor self (uadd (read_cursor self) n)).

Definition ijcringbuffer_is_empty (self : ijcringbuffer) : bool :=
  write_cursor self =? read_cursor self.

Definition ijcringbuffer_is_full (self : ijcringbuffer) : checked bool :=
  cs <- ijcringbuffer_consumeable_size self ;;
  ret (cs =? size self).

(** [produce] copies in three places: twice to [data + masked_write]
    (the split case and the write to the back), once under the label
    [write_to_front]. *)
Definition write_at_cursor (self : ijcringbuffer) (indata : memory) (insize : Z)
  : Z * ijcringbuffer :=
  let masked_write := Z.land (write_cursor self) (mask self) in
  let self1 :=
    set_data self (IJCRB_memcpy (data self) masked_write indata insize) in
  (1, set_write_cursor self1 (uadd (write_cursor self1) insize)).

Definition split_to_front (self : ijcringbuffer) (indata : memory) (insize : Z)
  : ijcringbuffer :=
  let masked_write := Z.land (write_cursor self) (mask self) in
  let self1 := set_wrap_cursor self (write_cursor self) in
  let self2 := set_data self1 (IJCRB_memcpy (data self1) 0 indata insize) in
  set_write_cursor self2
    (uadd (write_cursor self2)
       (uadd (uadd (size self2) (usub (size self2) masked_write)) insize)).

(** label [write_to_front] *)
Definition write_to_front (self : ijcringbuffer) (indata : memory) (insize : Z)
  : checked (Z * ijcringbuffer) :=
  let self' := split_to_front self indata insize in
  IJCRB_assert (Z.land (write_cursor self') (mask self') =? insize) ;;;
  ret (1, self').

(** label [check_front] *)
Definition check_front (self : ijcringbuffer) (indata : memory) (insize : Z)
  : checked (Z * ijcringbuffer) :=
  if Z.land (read_cursor self) (mask self) >=? insize
  then write_to_front self indata insize
  else ret (0, self).

Definition ijcringbuffer_produce
    (self : ijcringbuffer) (indata : memory) (insize : Z)
  : checked (Z * ijcringbuffer) :=
  let masked_write := Z.land (write_cursor self) (mask self) in
  if ijcringbuffer__is_split self then
    avail_write_size <-
      (if wrap_cursor self =? read_cursor self then
         ret (if truthy masked_write then usub (size self) masked_write else 0)
       else
         IJCRB_assert (Z.land (read_cursor self) (mask self)
                       >=? Z.land (write_cursor self) (mask self)) ;;;
         ret (Z.land (usub (read_cursor self) (write_cursor self))
                     (mask self))) ;;
    if avail_write_size >=? insize
    then ret (write_at_cursor self indata insize)
    else ret (0, self)
  else
    let is_empty := ijcringbuffer_is_empty self in
    if truthy masked_write && is_empty && (size self >=? insize) then
      write_to_front self indata insize
    else if negb (truthy masked_write) && negb is_empty then
      check_front self indata insize
    else if usub (size self) masked_write >=? insize then
      ret (write_at_cursor self indata insize)
    else
      check_front self indata insize.

(** ** Results of calls, and the data of [ijcringbuffer_test] *)

Definition hex : memory :=
  fun i => nth (Z.to_nat i)
             [x30; x31; x32; x33; x34; x35; x36; x37; x38; x39;
              x61; x62; x63; x64; x65; x66] x00.

Definition zeroes : memory := fun _ => x00.

(** [hex + k] *)
Definition shift (p : memory) (k : Z) : memory := fun i => p (k + i).

Definition produce_to (self : ijcringbuffer) (indata : memory) (insize : Z)
  : ijcringbuffer :=
  snd (value (ijcringbuffer_produce self indata insize)).

Definition produce_ret (self : ijcringbuffer) (indata : memory) (insize : Z)
  : Z :=
  fst (value (ijcringbuffer_produce self indata insize)).

Definition consume_to (self : ijcringbuffer) (n : Z) : ijcringbuffer :=
  value (ijcringbuffer_consume self n).

Definition peek_bytes (self : ijcringbuffer) (n : Z) : list byte :=
  bytes_at (data self) (fst (ijcringbuffer_peek self)) n.

Definition ring8 : ijcringbuffer := value (ijcringbuffer_init zeroes 8).

(** ** Capacities: powers of two *)

Definition capacity (kmax : Z) (sz msk : Z) : Prop :=
  exists k, 0 <= k <= kmax /\ sz = 2 ^ k /\ msk = sz - 1.

(** ** Calls and reachable states *)

Inductive call : Type :=
| ResetCall
| ProduceCall (indata : memory) (insize : Z)
| ConsumeCall (n : Z).

Definition exec (s : ijcringbuffer) (c : call) : ijcringbuffer :=
  match c with
  | ResetCall => ijcringbuffer_reset s
  | ProduceCall indata insize => produce_to s indata insize
  | ConsumeCall n => consume_to s n
  end.

(** What the interface asks of a call: arguments are [unsigned], and
    [consume] is given no more than the continuous size. *)
Definition allowed (s : ijcringbuffer) (c : call) : Prop :=
  match c with
  | ResetCall => True
  | ProduceCall _ insize => 0 <= insize < modulus
  | ConsumeCall n =>
      0 <= n /\ n <= value (ijcringbuffer_consumeable_size_continuous s)
  end.

(** Every state a client can bring the buffer to. *)
Inductive reachable : ijcringbuffer -> Prop :=
| reachable_init d data_size :
    0 <= data_size < modulus ->
    asserts_ok (ijcringbuffer_init d data_size) = true ->
    reachable (value (ijcringbuffer_init d data_size))
| reachable_call s c :
    reachable s -> allowed s c -> reachable (exec s c).

(** Regular use: the capacity is at most 2^29 bytes and no [produce] is
    of zero bytes. *)
Definition nonempty (c : call) : Prop :=
  match c with
  | ProduceCall _ insize => 0 < insize
  | _ => True
  end.

Inductive regular : ijcringbuffer -> Prop :=
| regular_init d data_size :
    0 <= data_size <= 2 ^ 29 ->
    asserts_ok (ijcringbuffer_init d data_size) = true ->
    regular (value (ijcringbuffer_init d data_size))
| regular_call s c :
    regular s -> allowed s c -> nonempty c -> regular (exec s c).

(** Running a list of calls. *)
Definition run (s : ijcringbuffer) (cs : list call) : ijcringbuffer :=
  fold_left exec cs s.

(** ** Layouts: where the live bytes are

    [Unsplit B r c]: [c] live bytes at offset [r], in the lap that starts
    at the multiple [B] of the size.
    [Split V v t f]: the tail run has [t] bytes left and ends where the
    write cursor stood ([v] past the multiple [V]) when the buffer was
    split; the front run has [f] bytes at offset 0. *)

Inductive layout : Type :=
| Unsplit (B r c : Z)
| Split (V v t f : Z).

Definition layout_ok (sz : Z) (l : layout) : Prop :=
  match l with
  | Unsplit B r c =>
      (sz | B) /\ 0 <= r < sz /\ 0 <= c /\ r + c <= sz
  | Split V v t f =>
      (sz | V) /\ 0 <= v < sz /\ 0 <= t /\ 1 <= f <= sz /\
      (t = 0 \/ (t <= v /\ f <= v - t) \/ (v = 0 /\ f <= sz - t))
  end.

Definition describes (l : layout) (s : ijcringbuffer) : Prop :=
  capacity 29 (size s) (mask s) /\
  layout_ok (size s) l /\
  match l with
  | Unsplit B r c =>
      read_cursor s = wrap (B + r) /\
      write_cursor s = wrap (B + r + c)
  | Split V v t f =>
      read_cursor s = wrap (V + v - t) /\
      wrap_cursor s = wrap (V + v) /\
      write_cursor s = wrap (V + 2 * size s + f)
  end.

(** Live bytes, and live bytes of the run that is read first. *)
Definition stored (l : layout) : Z :=
  match l with
  | Unsplit _ _ c => c
  | Split _ _ t f => t + f
  end.

Definition first_run (l : layout) : Z :=
  match l with
  | Unsplit _ _ c => c
  | Split _ _ t f => if t =? 0 then f else t
  end.

Definition is_split_layout (l : layout) : bool :=
  match l with
  | Unsplit _ _ _ => false
  | Split _ _ _ _ => true
  end.

(** ** [consume] and [produce] on layouts *)

Definition consume_layout (sz : Z) (l : layout) (n : Z) : layout :=
  match l with
  | Unsplit B r c =>
      if r + n =? sz then Unsplit (B + sz) 0 (c - n)
      else Unsplit B (r + n) (c - n)
  | Split V v t f =>
      if t =? 0 then
        if n =? sz then Unsplit (V + 3 * sz) 0 (f - n)
        else Unsplit (V + 2 * sz) n (f - n)
      else Split V v (t - n) f
  end.

Inductive placement : Type := AtCursor | AtFront | Nowhere.

(** Where a [produce] of [n] bytes, [0 < n], puts them. *)
Definition place (sz : Z) (l : layout) (n : Z) : placement :=
  match l with
  | Unsplit B r c =>
      if (c =? 0) && (0 <? r) then
        if n <=? sz then AtFront else Nowhere
      else if r + c + n <=? sz then AtCursor
      else if n <=? r then AtFront
      else Nowhere
  | Split V v t f =>
      if t =? 0 then
        if f + n <=? sz then AtCursor else Nowhere
      else
        if f + n <=? (v - t) mod sz then AtCursor else Nowhere
  end.

Definition produce_layout (sz : Z) (l : layout) (n : Z) : layout :=
  match place sz l n, l with
  | AtCursor, Unsplit B r c => Unsplit B r (c + n)
  | AtCursor, Split V v t f => Split V v t (f + n)
  | AtFront, Unsplit B r c =>
      if r + c =? sz then Split (B + sz) 0 c n else Split B (r + c) c n
  | _, _ => l
  end.

(** ** Concrete runs *)

Definition allowedb (s : ijcringbuffer) (c : call) : bool :=
  match c with
  | ResetCall => true
  | ProduceCall _ insize => (0 <=? insize) && (insize <? modulus)
  | ConsumeCall n =>
      (0 <=? n) && (n <=? value (ijcringbuffer_consumeable_size_continuous s))
  end.

Fixpoint allowed_allb (s : ijcringbuffer) (cs : list call) : bool :=
  match cs with
  | [] => true
  | c :: cs' => allowedb s c && allowed_allb (exec s c) cs'
  end.

Definition nonemptyb (c : call) : bool :=
  match c with
  | ProduceCall _ insize => 0 <? insize
  | _ => true
  end.

(** States of the 8 byte buffer: full; 3 bytes at offset 0; empty with
    the cursors at offset 1, and at offset 3. *)
Definition full8 : ijcringbuffer := run ring8 [ProduceCall hex 8].

Definition three_stored : ijcringbuffer := run ring8 [ProduceCall hex 3].

Definition empty_at_1 : ijcringbuffer :=
  run ring8 [ProduceCall hex 1; ConsumeCall 1].

Definition empty_at_3 : ijcringbuffer :=
  run ring8 [ProduceCall hex 3; ConsumeCall 3].

(** A split buffer with tail bytes left: 8 bytes produced, 1 consumed,
    1 produced at the front. *)
Definition split_state : ijcringbuffer :=
  run ring8 [ProduceCall hex 8; ConsumeCall 1; ProduceCall (shift hex 1) 1].

(** ** The paths of [produce] in an unsplit buffer *)

(** The tests of [produce] in an unsplit buffer: the auto-reset, and the
    test that sends a buffer whose write cursor is at offset 0 while
    bytes are stored to [check_front]. *)
Definition auto_reset (self : ijcringbuffer) (insize : Z) : bool :=
  truthy (Z.land (write_cursor self) (mask self))
  && ijcringbuffer_is_empty self && (size self >=? insize).

Definition back_closed (self : ijcringbuffer) : bool :=
  negb (truthy (Z.land (write_cursor self) (mask self)))
  && negb (ijcringbuffer_is_empty self).

(** ** Claims that fail as the specification states them *)

(** C7 as the specification states it. *)
Definition C7_as_stated : Prop :=
  forall s d n,
    reachable s -> 0 <= n < modulus ->
    ijcringbuffer__is_split s = false ->
    auto_reset s n = false ->
    (usub (size s) (Z.land (write_cursor s) (mask s)) >=? n) = true ->
    value (ijcringbuffer_produce s d n) =
    (1, set_write_cursor
          (set_data s (IJCRB_memcpy (data s)
                         (Z.land (write_cursor s) (mask s)) d n))
          (uadd (write_cursor s) n)).

(** C3 as the specification states it. *)
Definition C3_as_stated : Prop :=
  forall s d n,
    reachable s -> 1 <= n <= size s ->
    produce_ret s d n = 1 ->
    peek_bytes (produce_to s d n) n = bytes_at d 0 n.

(** C5 as the specification states it. *)
Definition C5_as_stated : Prop :=
  forall s n,
    reachable s ->
    0 <= n <= value (ijcringbuffer_consumeable_size_continuous s) ->
    let s' := consume_to s n in
    if (read_cursor s =? wrap_cursor s) && ijcringbuffer__is_split s then
      read_cursor s' =
        uadd (read_cursor s)
          (uadd (uadd (size s)
                   (usub (size s) (Z.land (read_cursor s) (mask s)))) n) /\
      Z.land (read_cursor s') (mask s') = n /\
      ijcringbuffer__difference (read_cursor s') (write_cursor s') <= size s'
    else
      read_cursor s' = uadd (read_cursor s) n.

(** A front run that fills the buffer: 6 bytes and 2 bytes written to the
    front of an empty 8 byte buffer whose cursors stand at offset 4. *)
Definition full_front : ijcringbuffer :=
  run ring8 [ProduceCall hex 4; ConsumeCall 4; ProduceCall hex 6;
             ProduceCall hex 2].

(** The calls that reach the label [write_to_front] from an unsplit
    buffer: through the auto-reset, or through [check_front] when the
    back is not tried or has no room. *)
Definition front_path (self : ijcringbuffer) (insize : Z) : bool :=
  negb (ijcringbuffer__is_split self)
  && (auto_reset self insize
      || ((back_closed self
           || negb (usub (size self) (Z.land (write_cursor self) (mask self))
                    >=? insize))
          && (Z.land (read_cursor self) (mask self) >=? insize))).

(** ** States in which the code breaks its own assertions *)

(** Whether a call passes the assertions it meets. *)
Definition call_asserts (s : ijcringbuffer) (c : call) : bool :=
  match c with
  | ResetCall => true
  | ProduceCall indata insize =>
      asserts_ok (ijcringbuffer_produce s indata insize)
  | ConsumeCall n => asserts_ok (ijcringbuffer_consume s n)
  end.

Fixpoint run_asserts (s : ijcringbuffer) (cs : list call) : bool :=
  match cs with
  | [] => true
  | c :: cs' => call_asserts s c && run_asserts (exec s c) cs'
  end.

(** An empty buffer whose cursors stand at offset 1, after a [produce]
    of zero bytes: the auto-reset split it, and it reports 8 bytes. *)
Definition zero_reset : ijcringbuffer :=
  run ring8 [ProduceCall hex 1; ConsumeCall 1; ProduceCall hex 0].

(** A full buffer after a [produce] of zero bytes. *)
Definition zero_on_full : ijcringbuffer :=
  run ring8 [ProduceCall hex 8; ProduceCall hex 0].

(** Buffers of 2^31 and of 2^30 bytes: the first empty with the cursors
    at offset 1, the second filled, then 2 bytes consumed and 2 bytes
    written to the front. *)
Definition empty_2_31 : ijcringbuffer :=
  run (value (ijcringbuffer_init zeroes (2 ^ 31)))
      [ProduceCall hex 1; ConsumeCall 1].

Definition wrapped_2_30 : ijcringbuffer :=
  run (value (ijcringbuffer_init zeroes (2 ^ 30)))
      [ProduceCall hex (2 ^ 30); ConsumeCall 2; ProduceCall hex 2].

(** A 4 byte buffer, and a state of it that the zero-byte [produce]
    makes reachable. *)
Definition ring4 : ijcringbuffer := value (ijcringbuffer_init zeroes 4).

Definition astray : ijcringbuffer :=
  run ring4 [ProduceCall hex 1; ConsumeCall 1; ProduceCall hex 0;
             ConsumeCall 1; ConsumeCall 5; ProduceCall hex 2; ConsumeCall 3].

(** ** What a reader gets, and the queue of bytes it should get *)

(** The bytes a reader gets in two rounds of [peek] and [consume], each
    of the continuous size of the moment. *)
Definition read_all (s : ijcringbuffer) : list byte :=
  let c := value (ijcringbuffer_consumeable_size_continuous s) in
  let s1 := consume_to s c in
  peek_bytes s c
  ++ peek_bytes s1 (value (ijcringbuffer_consumeable_size_continuous s1)).

(** A queue of bytes under a call: [produce] appends its bytes when it
    returns 1, [consume] drops the first [n] bytes, [reset] drops all. *)
Definition queue_step (s : ijcringbuffer) (q : list byte) (c : call)
  : list byte :=
  match c with
  | ResetCall => []
  | ProduceCall indata insize =>
      if produce_ret s indata insize =? 1
      then q ++ bytes_at indata 0 insize else q
  | ConsumeCall n => skipn (Z.to_nat n) q
  end.

Fixpoint queue_run (s : ijcringbuffer) (q : list byte) (cs : list call)
  : list byte :=
  match cs with
  | [] => q
  | c :: cs' => queue_run (exec s c) (queue_step s q c) cs'
  end.

(** The stored bytes of a layout in the memory [m]. *)
Definition contents (sz : Z) (l : layout) (m : memory) : list byte :=
  match l with
  | Unsplit _ r c => bytes_at m r c
  | Split _ v t f =>
      (if t =? 0 then [] else bytes_at m ((v - t) mod sz) t) ++ bytes_at m 0 f
  end.

(** * Part II: the verification *)

(** ** Replaying [ijcringbuffer_test] *)

Example test_block_1 :
  let r1 := produce_to ring8 hex 8 in
  let r2 := consume_to r1 8 in
  let r3 := produce_to r2 (shift hex 4) 7 in
  let r4 := consume_to r3 6 in
  let r5 := produce_to r4 hex 6 in
  let r6 := consume_to r5 1 in
  let r7 := consume_to r6 6 in
  produce_ret ring8 hex 8 = 1 /\
  produce_ret r1 hex 1 = 0 /\
  value (ijcringbuffer_consumeable_size r1) = 8 /\
  peek_bytes r1 8 = bytes_at hex 0 8 /\
  produce_ret r2 (shift hex 4) 7 = 1 /\
  value (ijcringbuffer_consumeable_size r3) = 7 /\
  peek_bytes r3 7 = bytes_at hex 4 7 /\
  produce_ret r4 hex 6 = 1 /\
  peek_bytes r5 1 = bytes_at hex 10 1 /\
  value (ijcringbuffer_consumeable_size r6) = 6 /\
  peek_bytes r6 6 = bytes_at hex 0 6 /\
  ijcringbuffer_is_empty r7 = true.
Proof. vm_compute. repeat split; reflexivity. Qed.

Example test_block_2 :
  let r1 := produce_to ring8 hex 6 in
  let r2 := consume_to r1 5 in
  let r3 := produce_to r2 hex 4 in
  let r4 := produce_to r3 hex 1 in
  produce_ret ring8 hex 6 = 1 /\
  value (ijcringbuffer_consumeable_size r1) = 6 /\
  produce_ret r2 hex 4 = 1 /\
  produce_ret r3 hex 1 = 1 /\
  produce_ret r4 hex 1 = 0.
Proof. vm_compute. repeat split; reflexivity. Qed.

Example test_block_3 :
  let t := 4294967295 - 3 in
  let r := set_write_cursor (set_read_cursor ring8 t) t in
  let r1 := produce_to r hex 6 in
  let r2 := produce_to r1 hex 2 in
  let r3 := consume_to r2 6 in
  produce_ret r hex 6 = 1 /\
  produce_ret r1 hex 2 = 1 /\
  value (ijcringbuffer_consumeable_size r2) = 8 /\
  peek_bytes r2 6 = bytes_at hex 0 6 /\
  value (ijcringbuffer_consumeable_size r3) = 2 /\
  peek_bytes r3 2 = bytes_at hex 0 2.
Proof. vm_compute. repeat split; reflexivity. Qed.

Example test_block_4 :
  let t := 4294967295 - 3 in
  let r := set_read_cursor (set_write_cursor ring8 t) (t - 1) in
  let r1 := produce_to r hex 4 in
  let r2 := produce_to r1 hex 3 in
  value (ijcringbuffer_consumeable_size r) = 1 /\
  produce_ret r hex 4 = 1 /\
  value (ijcringbuffer_consumeable_size_continuous r1) = 5 /\
  value (ijcringbuffer_consumeable_size r1) = 5 /\
  produce_ret r1 hex 4 = 0 /\
  produce_ret r1 hex 3 = 1 /\
  produce_ret r2 hex 1 = 0 /\
  value (ijcringbuffer_consumeable_size_continuous r2) = 5 /\
  value (ijcringbuffer_consumeable_size r2) = 8.
Proof. vm_compute. repeat split; reflexivity. Qed.

Example test_block_5 :
  let r1 := produce_to ring8 hex 6 in
  let r2 := consume_to r1 5 in
  let r3 := produce_to r2 hex 2 in
  let r4 := produce_to r3 hex 5 in
  value (ijcringbuffer_consumeable_size r2) = 1 /\
  produce_ret r2 hex 2 = 1 /\
  value (ijcringbuffer_consumeable_size_continuous r3) = 3 /\
  produce_ret r3 hex 5 = 1 /\
  value (ijcringbuffer_consumeable_size_continuous r4) = 3 /\
  value (ijcringbuffer_consumeable_size r4) = 8.
Proof. vm_compute. repeat split; reflexivity. Qed.

Example test_block_6 :
  let r1 := produce_to ring8 hex 8 in
  let r2 := consume_to r1 1 in
  let r3 := produce_to r2 (shift hex 1) 1 in
  let r4 := consume_to r3 7 in
  value (ijcringbuffer_consumeable_size_continuous r2) = 7 /\
  value (ijcringbuffer_consumeable_size r2) = 7 /\
  produce_ret r2 (shift hex 1) 1 = 1 /\
  value (ijcringbuffer_consumeable_size_continuous r3) = 7 /\
  value (ijcringbuffer_consumeable_size r3) = 8 /\
  value (ijcringbuffer_consumeable_size_continuous r4) = 1 /\
  value (ijcringbuffer_consumeable_size r4) = 1 /\
  peek_bytes r4 1 = bytes_at hex 1 1.
Proof. vm_compute. repeat split; reflexivity. Qed.

(** ** Arithmetic of the cursors *)

Lemma modulus_pos : 0 < modulus.
Proof. reflexivity. Qed.

Lemma wrap_small x : 0 <= x < modulus -> wrap x = x.
Proof. apply Z.mod_small. Qed.

Lemma wrap_add_l a b : wrap (wrap a + b) = wrap (a + b).
Proof. apply Zplus_mod_idemp_l. Qed.

Lemma wrap_add_r a b : wrap (a + wrap b) = wrap (a + b).
Proof. apply Zplus_mod_idemp_r. Qed.

Lemma wrap_sub_l a b : wrap (wrap a - b) = wrap (a - b).
Proof. apply Zminus_mod_idemp_l. Qed.

Lemma wrap_sub_r a b : wrap (a - wrap b) = wrap (a - b).
Proof. apply Zminus_mod_idemp_r. Qed.

(** Two values less than [modulus] apart wrap to different cursors. *)
Lemma wrap_inj a g : 0 <= g < modulus -> wrap (a + g) = wrap a -> g = 0.
Proof.
  intros Hg H.
  assert (E : wrap (wrap (a + g) - a) = wrap (wrap a - a)) by (rewrite H; reflexivity).
  rewrite !wrap_sub_l in E.
  replace (a + g - a) with g in E by lia.
  rewrite Z.sub_diag in E.
  rewrite (wrap_small g Hg) in E. exact E.
Qed.

Lemma wrap_eqb a g :
  0 <= g < modulus -> (wrap (a + g) =? wrap a) = (g =? 0).
Proof.
  intros Hg. destruct (Z.eqb_spec g 0) as [->|N].
  - rewrite Z.add_0_r. apply Z.eqb_refl.
  - apply Z.eqb_neq. intros H. apply N. eapply wrap_inj; eassumption.
Qed.

Lemma wrap_neg g : 0 < g < modulus -> wrap (- g) = modulus - g.
Proof.
  intros Hg. unfold wrap.
  rewrite <- (Z_mod_plus_full (- g) 1 modulus).
  replace (- g + 1 * modulus) with (modulus - g) by lia.
  apply Z.mod_small. lia.
Qed.

(** The circular distance of two cursors [g] apart, [g] at most half the
    range. *)
Lemma difference_gap a g :
  0 <= g <= 2 ^ 31 ->
  ijcringbuffer__difference (wrap a) (wrap (a + g)) = g /\
  ijcringbuffer__difference (wrap (a + g)) (wrap a) = g.
Proof.
  intros Hg. unfold ijcringbuffer__difference, usub.
  rewrite !wrap_sub_l, !wrap_sub_r.
  replace (a - (a + g)) with (- g) by lia.
  replace (a + g - a) with g by lia.
  assert (M : modulus = 2 * 2 ^ 31) by reflexivity.
  destruct (Z.eq_dec g 0) as [->|N].
  - cbn. auto.
  - rewrite wrap_neg by lia. rewrite (wrap_small g) by lia.
    split.
    + destruct (Z.gtb_spec (modulus - g) g); lia.
    + destruct (Z.gtb_spec g (modulus - g)); lia.
Qed.

(** *** Capacities *)

Section Capacity.

Variables (kmax sz msk : Z).

Hypothesis Hkmax : kmax <= 31.

Hypothesis Hcap : capacity kmax sz msk.

Lemma capacity_pos : 0 < sz.
Proof.
  destruct Hcap as (k & Hk & -> & _). apply Z.pow_pos_nonneg; lia.
Qed.

Lemma capacity_le : sz <= 2 ^ kmax.
Proof.
  destruct Hcap as (k & Hk & -> & _). apply Z.pow_le_mono_r; lia.
Qed.

Lemma capacity_divides : (sz | modulus).
Proof.
  destruct Hcap as (k & Hk & -> & _).
  exists (2 ^ (32 - k)). unfold modulus.
  rewrite <- Z.pow_add_r by lia. f_equal. lia.
Qed.

Lemma land_mask x : Z.land x msk = x mod sz.
Proof.
  destruct Hcap as (k & Hk & -> & ->).
  rewrite <- Z.land_ones by lia.
  rewrite Z.ones_equiv, <- Z.sub_1_r. reflexivity.
Qed.

Lemma land_mask_range x : 0 <= Z.land x msk < sz.
Proof. rewrite land_mask. apply Z.mod_pos_bound, capacity_pos. Qed.

Lemma wrap_mod x : wrap x mod sz = x mod sz.
Proof.
  unfold wrap. apply Z.mod_mod_divide, capacity_divides.
Qed.

(** The masked value of a cursor that lies [o] past a multiple of the
    size. *)
Lemma land_lap x o : (sz | x - o) -> Z.land (wrap x) msk = o mod sz.
Proof.
  intros [q E]. rewrite land_mask, wrap_mod.
  replace x with (o + q * sz) by lia. apply Z_mod_plus_full.
Qed.

Lemma mod_below o : 0 <= o < sz -> o mod sz = o.
Proof. apply Z.mod_small. Qed.

Lemma mod_at_size : sz mod sz = 0.
Proof. apply Z_mod_same_full. Qed.

Lemma mod_upto o : 0 <= o <= sz -> o mod sz = if o =? sz then 0 else o.
Proof.
  intros Ho. destruct (Z.eqb_spec o sz) as [->|N].
  - apply mod_at_size.
  - apply mod_below. lia.
Qed.

End Capacity.

Lemma pow29 : 2 ^ 29 = 536870912. Proof. reflexivity. Qed.

Lemma pow31 : 2 ^ 31 = 2147483648. Proof. reflexivity. Qed.

Lemma modulus_val : modulus = 4294967296. Proof. reflexivity. Qed.

Lemma gtb_false a b : a <= b -> (a >? b) = false.
Proof. intros. rewrite Z.gtb_ltb. apply Z.ltb_ge. assumption. Qed.

Lemma geb_false a b : a < b -> (a >=? b) = false.
Proof. intros. rewrite Z.geb_leb. apply Z.leb_gt. assumption. Qed.

Lemma gtb_true a b : b < a -> (a >? b) = true.
Proof. apply Z.gtb_lt. Qed.

Lemma geb_true a b : b <= a -> (a >=? b) = true.
Proof. apply Z.geb_le. Qed.

(** The power of two test of [ijcringbuffer_init]. *)
Lemma land_pred_pow2 x :
  0 < x -> Z.land x (x - 1) = 0 -> x = 2 ^ Z.log2 x.
Proof.
  intros Hx H.
  destruct (Z.log2_spec x Hx) as [Hlo Hhi].
  destruct (Z.eq_dec x (2 ^ Z.log2 x)) as [E|N]; [exact E|exfalso].
  assert (Hk : Z.log2 (x - 1) = Z.log2 x).
  { apply Z.log2_unique; [apply Z.log2_nonneg | lia]. }
  assert (T : Z.testbit (Z.land x (x - 1)) (Z.log2 x) = true).
  { rewrite Z.land_spec, (Z.bit_log2 x Hx).
    rewrite <- Hk. rewrite Z.bit_log2; [reflexivity|].
    pose proof (Z.pow_pos_nonneg 2 (Z.log2 x) ltac:(lia) (Z.log2_nonneg x)). lia. }
  rewrite H, Z.bits_0 in T. discriminate.
Qed.

Lemma init_capacity d data_size :
  0 <= data_size < modulus ->
  asserts_ok (ijcringbuffer_init d data_size) = true ->
  capacity 31 (size (value (ijcringbuffer_init d data_size)))
              (mask (value (ijcringbuffer_init d data_size))) /\
  size (value (ijcringbuffer_init d data_size)) = data_size /\
  read_cursor (value (ijcringbuffer_init d data_size)) = 0 /\
  write_cursor (value (ijcringbuffer_init d data_size)) = 0 /\
  wrap_cursor (value (ijcringbuffer_init d data_size)) = 0 /\
  data (value (ijcringbuffer_init d data_size)) = d.
Proof.
  intros Hr H. cbn in H. rewrite andb_true_r in H.
  apply andb_true_iff in H. destruct H as [Hpos Hland].
  apply Z.gtb_lt in Hpos.
  unfold truthy in Hland. rewrite negb_involutive in Hland.
  apply Z.eqb_eq in Hland.
  assert (Hm : usub data_size 1 = data_size - 1).
  { unfold usub. apply wrap_small. lia. }
  rewrite Hm in Hland.
  cbn. rewrite Hm. repeat split.
  exists (Z.log2 data_size). repeat split.
  - apply Z.log2_nonneg.
  - assert (Z.log2 data_size < 32) by (apply Z.log2_lt_pow2; [lia | apply Hr]). lia.
  - apply land_pred_pow2; assumption.
Qed.

(** ** What the functions see of a layout *)

Lemma describes_size l s : describes l s -> 0 < size s <= 536870912.
Proof.
  intros (Hcap & _).
  pose proof (capacity_pos _ _ _ Hcap).
  pose proof (capacity_le _ _ _ Hcap). rewrite pow29 in *. lia.
Qed.

Lemma observe_is_split l s :
  describes l s -> ijcringbuffer__is_split s = is_split_layout l.
Proof.
  intros Hd. pose proof (describes_size _ _ Hd) as Hsz.
  destruct Hd as (_ & Hok & Hcur). unfold ijcringbuffer__is_split.
  destruct l as [B r c|V v t f]; cbn [layout_ok is_split_layout] in *.
  - destruct Hok as (_ & Hr & Hc & Hrc). destruct Hcur as (-> & ->).
    destruct (difference_gap (B + r) c) as [E _]. { rewrite pow31. lia. }
    rewrite E. apply gtb_false. lia.
  - destruct Hok as (_ & Hv & Ht & Hf & Hfit). destruct Hcur as (-> & _ & ->).
    replace (V + 2 * size s + f)
      with ((V + v - t) + (2 * size s + f - v + t)) by lia.
    destruct (difference_gap (V + v - t) (2 * size s + f - v + t)) as [E _].
    { rewrite pow31. lia. }
    rewrite E. apply gtb_true. lia.
Qed.

Lemma observe_read_offset l s :
  describes l s ->
  Z.land (read_cursor s) (mask s) =
  match l with
  | Unsplit _ r _ => r
  | Split _ v t _ => (v - t) mod size s
  end.
Proof.
  intros (Hcap & Hok & Hcur).
  destruct l as [B r c|V v t f]; cbn [layout_ok] in *.
  - destruct Hok as ([q HB] & Hr & _). destruct Hcur as (-> & _).
    rewrite (land_lap 29 _ _ ltac:(lia) Hcap _ r) by (exists q; lia).
    apply Z.mod_small. lia.
  - destruct Hok as ([q HV] & _). destruct Hcur as (-> & _).
    apply (land_lap 29 _ _ ltac:(lia) Hcap). exists q; lia.
Qed.

Lemma observe_write_offset l s :
  describes l s ->
  Z.land (write_cursor s) (mask s) =
  match l with
  | Unsplit _ r c => (r + c) mod size s
  | Split _ _ _ f => f mod size s
  end.
Proof.
  intros (Hcap & Hok & Hcur).
  destruct l as [B r c|V v t f]; cbn [layout_ok] in *.
  - destruct Hok as ([q HB] & _). destruct Hcur as (_ & ->).
    apply (land_lap 29 _ _ ltac:(lia) Hcap). exists q; lia.
  - destruct Hok as ([q HV] & _). destruct Hcur as (_ & _ & ->).
    apply (land_lap 29 _ _ ltac:(lia) Hcap). exists (q + 2); lia.
Qed.

Lemma observe_is_empty l s :
  describes l s -> ijcringbuffer_is_empty s = (stored l =? 0).
Proof.
  intros Hd. pose proof (describes_size _ _ Hd) as Hsz.
  destruct Hd as (_ & Hok & Hcur). unfold ijcringbuffer_is_empty.
  destruct l as [B r c|V v t f]; cbn [layout_ok stored] in *.
  - destruct Hok as (_ & Hr & Hc & Hrc). destruct Hcur as (-> & ->).
    apply wrap_eqb. rewrite modulus_val. lia.
  - destruct Hok as (_ & Hv & Ht & Hf & Hfit). destruct Hcur as (-> & _ & ->).
    replace (V + 2 * size s + f)
      with ((V + v - t) + (2 * size s + f - v + t)) by lia.
    rewrite wrap_eqb by (rewrite modulus_val; lia).
    transitivity false; [apply Z.eqb_neq | symmetry; apply Z.eqb_neq]; lia.
Qed.

Lemma observe_at_wrap V v t f s :
  describes (Split V v t f) s ->
  (read_cursor s =? wrap_cursor s) = (t =? 0) /\
  (wrap_cursor s =? read_cursor s) = (t =? 0).
Proof.
  intros Hd. pose proof (describes_size _ _ Hd) as Hsz.
  destruct Hd as (_ & Hok & Hcur). cbn [layout_ok] in *.
  destruct Hok as (_ & Hv & Ht & Hf & Hfit). destruct Hcur as (-> & -> & _).
  assert (E : (wrap (V + v) =? wrap (V + v - t)) = (t =? 0)).
  { replace (V + v) with ((V + v - t) + t) at 1 by lia.
    apply wrap_eqb. rewrite modulus_val. lia. }
  split; [rewrite Z.eqb_sym|]; exact E.
Qed.

Lemma split_tail_fits sz V v t f :
  layout_ok sz (Split V v t f) -> t <> 0 ->
  0 < t < sz /\ 1 <= f < sz /\ t + f <= sz /\
  0 <= (v - t) mod sz < sz /\ f <= (v - t) mod sz /\ (v - t) mod sz + t <= sz.
Proof.
  intros (_ & Hv & Ht & Hf & Hfit) Hnz.
  destruct Hfit as [E|[[Htv Hfv]|[-> Hft]]]; [lia| |].
  - rewrite Z.mod_small by lia. lia.
  - replace (0 - t) with ((sz - t) + (-1) * sz) by lia.
    rewrite Z_mod_plus_full, Z.mod_small by lia. lia.
Qed.

Lemma observe_consumeable_size l s k :
  describes l s ->
  ijcringbuffer__consumeable_size s k =
  (if truthy k then first_run l else stored l, true).
Proof.
  intros Hd. pose proof (describes_size _ _ Hd) as Hsz.
  unfold ijcringbuffer__consumeable_size.
  rewrite (observe_is_split _ _ Hd).
  destruct l as [B r c|V v t f]; cbn [is_split_layout first_run stored].
  - destruct Hd as (_ & Hok & Hcur). cbn [layout_ok] in *.
    destruct Hok as (_ & Hr & Hc & Hrc). destruct Hcur as (-> & ->).
    unfold usub. rewrite wrap_sub_l, wrap_sub_r.
    replace (B + r + c - (B + r)) with c by lia.
    rewrite wrap_small by (rewrite modulus_val; lia).
    unfold bind, ret, IJCRB_assert. cbn [fst snd].
    rewrite geb_true by lia. destruct (truthy k); reflexivity.
  - destruct (observe_at_wrap _ _ _ _ _ Hd) as [E _]. rewrite E.
    pose proof (observe_write_offset _ _ Hd) as Hw. cbn in Hw.
    destruct Hd as (Hcap & Hok & Hcur).
    destruct (Z.eqb_spec t 0) as [->|Hnz].
    + cbn [layout_ok] in Hok. destruct Hok as (_ & Hv & Ht & Hf & Hfit).
      rewrite Hw, (mod_upto _ f) by lia.
      unfold bind, ret, IJCRB_assert, truthy. cbn [fst snd].
      destruct (Z.eqb_spec f (size s)) as [->|Hne].
      * cbn [Z.eqb negb]. rewrite geb_true by lia.
        destruct (negb (k =? 0)); reflexivity.
      * replace (f =? 0) with false by (symmetry; apply Z.eqb_neq; lia).
        cbn [negb]. rewrite geb_true by lia.
        destruct (negb (k =? 0)); reflexivity.
    + destruct (split_tail_fits _ _ _ _ _ Hok Hnz) as (Ht & Hf & Htf & _).
      cbn [layout_ok] in *. destruct Hcur as (Hrc & Hwr & Hwc).
      rewrite Hw, (Z.mod_small f) by lia.
      rewrite Hrc, Hwr.
      replace (wrap (V + v)) with (wrap ((V + v - t) + t)) by (f_equal; lia).
      destruct (difference_gap (V + v - t) t) as [_ D]. { rewrite pow31. lia. }
      rewrite D.
      unfold usub. rewrite wrap_sub_l, wrap_sub_r.
      replace (V + v - t + t - (V + v - t)) with t by lia.
      rewrite (land_lap 29 _ _ ltac:(lia) Hcap _ t) by (exists 0; lia).
      rewrite (Z.mod_small t) by lia.
      unfold bind, ret, IJCRB_assert, uadd. cbn [fst snd].
      rewrite gtb_true by lia.
      destruct (truthy k).
      * rewrite Z.add_0_r, wrap_small by (rewrite modulus_val; lia).
        rewrite geb_true by lia. reflexivity.
      * rewrite wrap_small by (rewrite modulus_val; lia).
        rewrite geb_true by lia. reflexivity.
Qed.

(** Equations between wrapped sums, whatever the nesting. *)
Ltac wrap_eq :=
  unfold uadd, usub, wrap, modulus;
  change (2 ^ 32) with 4294967296;
  Z.div_mod_to_equations; lia.

(** ** [consume] on layouts *)

Lemma stored_consume_layout sz l n :
  stored (consume_layout sz l n) = stored l - n.
Proof.
  destruct l as [B r c|V v t f]; cbn [consume_layout].
  - destruct (r + n =? sz); reflexivity.
  - destruct (Z.eqb_spec t 0) as [->|Hnz].
    + destruct (n =? sz); cbn [stored]; lia.
    + cbn [stored]. lia.
Qed.

(** What [consume] does to the structure, in any state. *)
Lemma consume_value s n :
  value (ijcringbuffer_consume s n) =
  set_read_cursor s
    (if (read_cursor s =? wrap_cursor s) && ijcringbuffer__is_split s
     then uadd (read_cursor s)
            (uadd (uadd (size s)
                        (usub (size s) (Z.land (read_cursor s) (mask s)))) n)
     else uadd (read_cursor s) n).
Proof.
  unfold ijcringbuffer_consume, bind, value. cbn [fst].
  destruct ((read_cursor s =? wrap_cursor s) && ijcringbuffer__is_split s);
    reflexivity.
Qed.

Lemma consume_asserts l s n :
  describes l s -> n <= first_run l ->
  asserts_ok (ijcringbuffer_consume s n) = true.
Proof.
  intros Hd Hn. unfold ijcringbuffer_consume, asserts_ok.
  unfold ijcringbuffer_consumeable_size_continuous.
  rewrite (observe_consumeable_size _ _ 1 Hd).
  unfold bind, IJCRB_assert. cbn [fst snd truthy Z.eqb negb].
  rewrite geb_true by lia.
  destruct ((read_cursor s =? wrap_cursor s) && ijcringbuffer__is_split s);
    reflexivity.
Qed.

Lemma consume_describes l s n :
  describes l s -> 0 <= n <= first_run l ->
  describes (consume_layout (size s) l n) (consume_to s n).
Proof.
  intros Hd Hn. pose proof (describes_size _ _ Hd) as Hsz.
  unfold consume_to. rewrite consume_value.
  rewrite (observe_is_split _ _ Hd), (observe_read_offset _ _ Hd).
  destruct l as [B r c|V v t f]; cbn [is_split_layout first_run consume_layout] in *.
  - rewrite andb_false_r.
    destruct Hd as (Hcap & Hok & Hcur). cbn [layout_ok] in *.
    destruct Hok as ([q HB] & Hr & Hc & Hrc). destruct Hcur as (Hrd & Hwc).
    destruct (Z.eqb_spec (r + n) (size s)) as [E|N];
      (split; [exact Hcap|]);
      cbn [layout_ok size mask read_cursor write_cursor wrap_cursor set_read_cursor];
      rewrite Hrd, Hwc; unfold uadd; rewrite wrap_add_l.
    + split; [repeat split; try lia; exists (q + 1); lia|].
      split; f_equal; lia.
    + split; [repeat split; try lia; exists q; lia|].
      split; f_equal; lia.
  - destruct (observe_at_wrap _ _ _ _ _ Hd) as [E _]. rewrite E.
    destruct Hd as (Hcap & Hok & Hcur).
    destruct (Z.eqb_spec t 0) as [->|Hnz]; cbn [andb].
    + cbn [layout_ok] in Hok.
      destruct Hok as ([q HV] & Hv & Ht & Hf & Hfit). destruct Hcur as (Hrd & Hwr & Hwc).
      rewrite Z.sub_0_r, (Z.mod_small v) by lia.
      destruct (Z.eqb_spec n (size s)) as [En|Nn];
        (split; [exact Hcap|]);
        cbn [layout_ok size mask read_cursor write_cursor wrap_cursor set_read_cursor];
        rewrite Hrd, Hwc.
      * split; [repeat split; try lia; exists (q + 3); lia|].
        clear - En. split; wrap_eq.
      * split; [repeat split; try lia; exists (q + 2); lia|].
        clear. split; wrap_eq.
    + destruct (split_tail_fits _ _ _ _ _ Hok Hnz) as (Ht & Hf & Htf & _).
      cbn [layout_ok] in Hok.
      destruct Hok as (HV & Hv & _ & _ & Hfit). destruct Hcur as (Hrd & Hwr & Hwc).
      split; [exact Hcap|].
      cbn [layout_ok size mask read_cursor write_cursor wrap_cursor set_read_cursor].
      rewrite Hrd, Hwr, Hwc. unfold uadd. rewrite wrap_add_l.
      split; [repeat split; try lia; exact HV|].
      repeat split; f_equal; lia.
Qed.

(** Deciding the tests of the code from the arithmetic of the layout. *)
Ltac decide_tests :=
  repeat match goal with
  | |- context [?a >=? ?b] =>
      first [rewrite (geb_true a b) by lia | rewrite (geb_false a b) by lia]
  | |- context [?a >? ?b] =>
      first [rewrite (gtb_true a b) by lia | rewrite (gtb_false a b) by lia]
  | |- context [?a <=? ?b] =>
      first [rewrite (proj2 (Z.leb_le a b)) by lia
            | rewrite (proj2 (Z.leb_gt a b)) by lia]
  | |- context [?a <? ?b] =>
      first [rewrite (proj2 (Z.ltb_lt a b)) by lia
            | rewrite (proj2 (Z.ltb_ge a b)) by lia]
  | |- context [?a =? ?b] =>
      first [rewrite (proj2 (Z.eqb_eq a b)) by lia
            | rewrite (proj2 (Z.eqb_neq a b)) by lia]
  end.

(** ** [produce] on layouts *)

(** A wrapped value differs from the value by a multiple of the size. *)
Lemma wrap_lap sz msk x :
  capacity 31 sz msk -> exists k, wrap x = x + k * sz.
Proof.
  intros Hcap. destruct (capacity_divides 31 _ _ ltac:(lia) Hcap) as [Q HQ].
  exists (- (x / modulus) * Q). unfold wrap.
  rewrite Z.mod_eq by (rewrite modulus_val; lia).
  rewrite <- Z.mul_assoc, <- HQ. lia.
Qed.

Ltac unwrap Hcap :=
  unfold uadd, usub;
  repeat match goal with
  | |- context [wrap ?b] =>
      lazymatch b with
      | context [wrap _] => fail
      | _ => let k := fresh "k" in let E := fresh "E" in
             destruct (wrap_lap _ _ b Hcap) as [k E]; rewrite E; clear E
      end
  end.

(** The inflation of the write cursor leaves it [insize] past a multiple
    of the size. *)
Lemma split_to_front_offset s d n :
  capacity 31 (size s) (mask s) ->
  Z.land (write_cursor (split_to_front s d n)) (mask s) = n mod size s.
Proof.
  intros Hcap. pose proof (capacity_pos _ _ _ Hcap) as Hpos.
  unfold split_to_front.
  cbn [size mask read_cursor write_cursor wrap_cursor set_write_cursor set_data
       set_wrap_cursor].
  rewrite !(land_mask _ _ _ Hcap).
  unwrap Hcap.
  pose proof (Z.div_mod (write_cursor s) (size s) ltac:(lia)) as E.
  match goal with |- ?x mod _ = _ =>
    replace x with (n + (write_cursor s / size s + 2 + k + k0 + k1 + k2) * size s)
      by lia
  end.
  apply Z_mod_plus_full.
Qed.

Lemma capacity_weaken k k' sz msk :
  k <= k' -> capacity k sz msk -> capacity k' sz msk.
Proof. intros Hk (j & Hj & E). exists j. split; [lia | exact E]. Qed.

Lemma produce_on_layout l s d n :
  describes l s -> 0 < n < modulus ->
  ijcringbuffer_produce s d n =
  match place (size s) l n with
  | AtCursor => (write_at_cursor s d n, true)
  | AtFront => ((1, split_to_front s d n), negb (n =? size s))
  | Nowhere => ((0, s), true)
  end.
Proof.
  intros Hd Hn. pose proof (describes_size _ _ Hd) as Hsz.
  rewrite modulus_val in Hn.
  assert (Hfront : forall b, b = negb (n =? size s) ->
            0 < n <= size s ->
            Z.land (write_cursor (split_to_front s d n)) (mask s) = n mod size s ->
            write_to_front s d n = ((1, split_to_front s d n), b)).
  { intros b -> Hle E. unfold write_to_front, bind, ret, IJCRB_assert. cbn [fst snd].
    replace (mask (split_to_front s d n)) with (mask s) by reflexivity.
    rewrite E, andb_true_r. f_equal.
    destruct (Z.eqb_spec n (size s)) as [->|N].
    - rewrite Z_mod_same_full. cbn [negb]. apply Z.eqb_neq. lia.
    - rewrite Z.mod_small by lia. cbn [negb]. apply Z.eqb_refl. }
  assert (Hoff := split_to_front_offset s d n
                   (capacity_weaken 29 31 _ _ ltac:(lia) (proj1 Hd))).
  unfold ijcringbuffer_produce, check_front.
  rewrite (observe_is_split _ _ Hd), (observe_is_empty _ _ Hd),
    (observe_write_offset _ _ Hd), (observe_read_offset _ _ Hd).
  destruct l as [B r c|V v t f]; cbn [is_split_layout stored place].
  - destruct Hd as (Hcap & Hok & Hcur). cbn [layout_ok] in Hok.
    destruct Hok as (_ & Hr & Hc & Hrc).
    rewrite (mod_upto _ (r + c)) by lia.
    unfold truthy, usub.
    assert (Hw : forall x, 0 <= x <= size s -> wrap x = x)
      by (intros; apply wrap_small; rewrite modulus_val; lia).
    destruct (Z.eq_dec c 0) as [->|Hc0].
    + rewrite Z.add_0_r in *.
      destruct (Z.eq_dec r 0) as [->|Hr0].
      * decide_tests. cbn [andb negb]. rewrite Hw by lia.
        destruct (Z.leb_spec n (size s)); decide_tests; reflexivity.
      * decide_tests. cbn [andb negb]. rewrite Hw by lia.
        destruct (Z.leb_spec n (size s)); decide_tests; cbn [andb].
        -- apply Hfront; [reflexivity|lia|exact Hoff].
        -- reflexivity.
    + destruct (Z.eq_dec (r + c) (size s)) as [E|N].
      * rewrite E. decide_tests. cbn [andb negb].
        destruct (Z.leb_spec n r); decide_tests.
        -- apply Hfront; [|lia|exact Hoff].
           symmetry. apply negb_true_iff, Z.eqb_neq. lia.
        -- reflexivity.
      * decide_tests. cbn [andb negb]. rewrite Hw by lia.
        destruct (Z.leb_spec (r + c + n) (size s)); decide_tests; [reflexivity|].
        destruct (Z.leb_spec n r); decide_tests.
        -- apply Hfront; [|lia|exact Hoff].
           symmetry. apply negb_true_iff, Z.eqb_neq. lia.
        -- reflexivity.
  - destruct (observe_at_wrap _ _ _ _ _ Hd) as [_ E]. rewrite E.
    destruct Hd as (Hcap & Hok & Hcur).
    destruct (Z.eq_dec t 0) as [->|Hnz].
    + cbn [layout_ok] in Hok. destruct Hok as (_ & Hv & Ht & Hf & Hfit).
      rewrite (mod_upto _ f) by lia.
      unfold bind, ret, truthy, usub. cbn [fst snd].
      destruct (Z.eq_dec f (size s)) as [->|Hne].
      * decide_tests. cbn [negb fst snd]. decide_tests. reflexivity.
      * decide_tests. cbn [negb fst snd].
        rewrite wrap_small by (rewrite modulus_val; lia).
        destruct (Z.leb_spec (f + n) (size s)); decide_tests; reflexivity.
    + destruct (split_tail_fits _ _ _ _ _ Hok Hnz) as (Ht & Hf & Htf & Hr & Hfr & Hrt).
      cbn [layout_ok] in Hok. destruct Hok as ([q HV] & _).
      destruct Hcur as (Hrc & Hwr & Hwc).
      rewrite (Z.mod_small f) by lia.
      assert (Ha : Z.land (usub (read_cursor s) (write_cursor s)) (mask s)
                   = (v - t) mod size s - f).
      { rewrite Hrc, Hwc. unfold usub. rewrite wrap_sub_l, wrap_sub_r.
        rewrite (land_lap 29 _ _ ltac:(lia) Hcap _ ((v - t) mod size s - f)).
        - apply Z.mod_small. lia.
        - pose proof (Z.div_mod (v - t) (size s) ltac:(lia)) as Ed.
          exists ((v - t) / size s - 2). lia. }
      rewrite Ha. unfold bind, ret, IJCRB_assert. cbn [fst snd].
      set (ro := (v - t) mod size s) in *.
      decide_tests. cbn [andb fst snd].
      destruct (Z.leb_spec (f + n) ro); decide_tests; reflexivity.
Qed.

Lemma place_at_cursor sz l n :
  place sz l n = AtCursor ->
  match l with
  | Unsplit _ r c => r + c + n <= sz
  | Split _ v t f => if t =? 0 then f + n <= sz else f + n <= (v - t) mod sz
  end.
Proof.
  destruct l as [B r c|V v t f]; cbn [place].
  - destruct ((c =? 0) && (0 <? r)).
    + destruct (n <=? sz); discriminate.
    + destruct (Z.leb_spec (r + c + n) sz); [trivial|].
      destruct (n <=? r); discriminate.
  - destruct (t =? 0).
    + destruct (Z.leb_spec (f + n) sz); [trivial|discriminate].
    + destruct (Z.leb_spec (f + n) ((v - t) mod sz)); [trivial|discriminate].
Qed.

Lemma place_at_front sz l n :
  place sz l n = AtFront ->
  match l with
  | Unsplit _ r c => (c = 0 /\ 0 < r /\ n <= sz) \/ (sz < r + c + n /\ n <= r)
  | Split _ _ _ _ => False
  end.
Proof.
  destruct l as [B r c|V v t f]; cbn [place].
  - destruct (Z.eqb_spec c 0) as [->|Hc]; cbn [andb].
    + destruct (Z.ltb_spec 0 r); cbn [andb].
      * destruct (Z.leb_spec n sz); [auto|discriminate].
      * destruct (Z.leb_spec (r + 0 + n) sz); [discriminate|].
        destruct (Z.leb_spec n r); [auto|discriminate].
    + destruct (Z.leb_spec (r + c + n) sz); [discriminate|].
      destruct (Z.leb_spec n r); [auto|discriminate].
  - destruct (t =? 0).
    + destruct (f + n <=? sz); discriminate.
    + destruct (f + n <=? (v - t) mod sz); discriminate.
Qed.

Lemma produce_describes l s d n :
  describes l s -> 0 < n < modulus ->
  describes (produce_layout (size s) l n) (produce_to s d n).
Proof.
  intros Hd Hn. pose proof (describes_size _ _ Hd) as Hsz.
  unfold produce_to, value. rewrite (produce_on_layout _ _ _ _ Hd Hn).
  pose proof (observe_write_offset _ _ Hd) as Hmw.
  unfold produce_layout.
  destruct (place (size s) l n) eqn:Hp; cbn [fst snd]; [| |exact Hd].
  - (* at the cursor *)
    apply place_at_cursor in Hp.
    destruct Hd as (Hcap & Hok & Hcur).
    split; [exact Hcap|].
    destruct l as [B r c|V v t f];
      cbn [layout_ok write_at_cursor snd size mask read_cursor write_cursor wrap_cursor
           set_write_cursor set_data] in *.
    + destruct Hok as (HB & Hr & Hc & Hrc). destruct Hcur as (Hrd & Hwc).
      split; [repeat split; try lia; exact HB|].
      rewrite Hrd, Hwc. split; [reflexivity|].
      clear. wrap_eq.
    + destruct Hok as (HV & Hv & Ht & Hf & Hfit). destruct Hcur as (Hrd & Hwr & Hwc).
      assert (Hfit' : f + n <= size s /\
                (t = 0 \/ (t <= v /\ f + n <= v - t) \/
                 (v = 0 /\ f + n <= size s - t))).
      { destruct (Z.eqb_spec t 0) as [->|Hnz]; [split; [lia|left; reflexivity]|].
        destruct Hfit as [E|[[Htv Hfv]|[-> Hft]]]; [lia| |].
        - rewrite Z.mod_small in Hp by lia. lia.
        - replace (0 - t) with ((size s - t) + (-1) * size s) in Hp by lia.
          rewrite Z_mod_plus_full, Z.mod_small in Hp by lia. lia. }
      split.
      * split; [exact HV|]. repeat split; lia.
      * rewrite Hrd, Hwr, Hwc. repeat split.
        clear. wrap_eq.
  - (* at the front *)
    apply place_at_front in Hp.
    destruct Hd as (Hcap & Hok & Hcur).
    split; [exact Hcap|].
    destruct l as [B r c|V v t f]; [|contradiction].
    cbn [layout_ok] in Hok. destruct Hok as ([q HB] & Hr & Hc & Hrc).
    destruct Hcur as (Hrd & Hwc).
    rewrite (mod_upto _ (r + c)) in Hmw by lia.
    unfold split_to_front.
    destruct (Z.eqb_spec (r + c) (size s)) as [E|N];
      cbn [layout_ok size mask read_cursor write_cursor wrap_cursor
           set_write_cursor set_data set_wrap_cursor];
      rewrite Hmw, Hrd, Hwc.
    + split; [repeat split; try lia; exists (q + 1); lia|].
      repeat split; first [f_equal; lia | clear - E; wrap_eq].
    + split; [repeat split; try lia; exists q; lia|].
      repeat split; first [f_equal; lia | clear; wrap_eq].
Qed.

(** ** Invariants of the reachable states *)

(** What [produce] returns, in any state: one of three results. *)
Lemma produce_cases s d n :
  value (ijcringbuffer_produce s d n) = (0, s) \/
  value (ijcringbuffer_produce s d n) = write_at_cursor s d n \/
  value (ijcringbuffer_produce s d n) = (1, split_to_front s d n).
Proof.
  unfold ijcringbuffer_produce, check_front, write_to_front, bind, ret, value.
  destruct (ijcringbuffer__is_split s).
  - destruct (wrap_cursor s =? read_cursor s); cbn [fst snd];
      match goal with |- context [if ?b then _ else _] => destruct b end;
      cbn [fst]; auto.
  - repeat match goal with
           | |- context [if ?b then _ else _] => destruct b
           end; cbn [fst]; auto.
Qed.

Lemma exec_geometry s c :
  size (exec s c) = size s /\ mask (exec s c) = mask s.
Proof.
  destruct c as [|d n|n]; cbn [exec].
  - split; reflexivity.
  - unfold produce_to.
    destruct (produce_cases s d n) as [E|[E|E]]; rewrite E; split; reflexivity.
  - unfold consume_to. rewrite consume_value. split; reflexivity.
Qed.

Lemma reachable_capacity s :
  reachable s -> capacity 31 (size s) (mask s).
Proof.
  induction 1 as [d n Hn Ha|s c _ IH Hc].
  - apply (init_capacity d n Hn Ha).
  - destruct (exec_geometry s c) as [-> ->]. exact IH.
Qed.

Lemma regular_reachable s : regular s -> reachable s.
Proof.
  induction 1 as [d n Hn Ha|s c _ IH Hc Hne].
  - apply reachable_init; [|exact Ha]. rewrite modulus_val, pow29 in *. lia.
  - apply reachable_call; assumption.
Qed.

Lemma regular_describes s : regular s -> exists l, describes l s.
Proof.
  induction 1 as [d n Hn Ha|s c _ [l Hd] Hc Hne].
  - exists (Unsplit 0 0 0).
    assert (Hn' : 0 <= n < modulus) by (rewrite modulus_val, pow29 in *; lia).
    destruct (init_capacity d n Hn' Ha) as ((k & Hk & Ek & Em) & Es & Er & Ew & _).
    pose proof (Z.pow_pos_nonneg 2 k ltac:(lia) ltac:(lia)) as Hpos.
    split; [|split].
    + exists k. repeat split; try lia; try assumption.
      rewrite Es in Ek. rewrite Ek in Hn.
      apply (Z.pow_le_mono_r_iff 2); lia.
    + cbn [layout_ok]. rewrite Ek.
      repeat split; try lia. apply Z.divide_0_r.
    + rewrite Er, Ew. split; reflexivity.
  - destruct c as [|d n|n]; cbn [exec allowed nonempty] in *.
    + exists (Unsplit 0 0 0).
      pose proof (describes_size _ _ Hd) as Hsz.
      destruct Hd as (Hcap & _).
      split; [exact Hcap|]. split.
      * cbn [layout_ok ijcringbuffer_reset size]. repeat split; try lia.
        apply Z.divide_0_r.
      * split; reflexivity.
    + exists (produce_layout (size s) l n).
      apply produce_describes; [exact Hd|lia].
    + exists (consume_layout (size s) l n).
      apply consume_describes; [exact Hd|].
      unfold ijcringbuffer_consumeable_size_continuous in Hc.
      rewrite (observe_consumeable_size _ _ 1 Hd) in Hc. exact Hc.
Qed.

(** ** Concrete runs *)

Lemma allowedb_allowed s c : allowedb s c = true -> allowed s c.
Proof.
  destruct c as [|d n|n]; cbn [allowedb allowed]; [trivial| |];
    intros H; apply andb_true_iff in H; destruct H as [H1 H2];
    apply Z.leb_le in H1; [apply Z.ltb_lt in H2|apply Z.leb_le in H2]; lia.
Qed.

Lemma nonemptyb_nonempty c : nonemptyb c = true -> nonempty c.
Proof.
  destruct c as [|d n|n]; cbn [nonemptyb nonempty]; [trivial| |trivial].
  apply Z.ltb_lt.
Qed.

Lemma reachable_run s cs :
  reachable s -> allowed_allb s cs = true -> reachable (run s cs).
Proof.
  revert s. induction cs as [|c cs IH]; intros s Hs H; cbn [run fold_left] in *.
  - exact Hs.
  - cbn [allowed_allb] in H. apply andb_true_iff in H. destruct H as [Hc Hcs].
    apply IH; [|exact Hcs].
    apply reachable_call; [exact Hs | apply allowedb_allowed, Hc].
Qed.

Lemma regular_run s cs :
  regular s -> allowed_allb s cs = true -> forallb nonemptyb cs = true ->
  regular (run s cs).
Proof.
  revert s. induction cs as [|c cs IH]; intros s Hs H Hne; cbn [run fold_left] in *.
  - exact Hs.
  - cbn [allowed_allb forallb] in *.
    apply andb_true_iff in H. destruct H as [Hc Hcs].
    apply andb_true_iff in Hne. destruct Hne as [Hn Hns].
    apply IH; [|exact Hcs|exact Hns].
    apply regular_call;
      [exact Hs | apply allowedb_allowed, Hc | apply nonemptyb_nonempty, Hn].
Qed.

(** The 8 byte buffer, as [ijcringbuffer_init] leaves it. *)
Lemma reachable_ring8 : reachable ring8.
Proof.
  apply (reachable_init zeroes 8); [split|]; reflexivity || discriminate.
Qed.

Lemma regular_ring8 : regular ring8.
Proof. apply (regular_init zeroes 8); reflexivity || (split; discriminate). Qed.

(** ** The consumable sizes *)

(** C4: in every reachable state the continuous and the total
    consumable size are given by the three cases: unsplit, both are
    [write_cursor - read_cursor] (modular); split with the tail drained
    ([read_cursor = wrap_cursor]), both are [write_cursor & mask] if that
    is nonzero and [size] otherwise; split with tail bytes left, the
    continuous size is [(wrap_cursor - read_cursor) & mask] and the total
    size is that plus [write_cursor & mask]. *)
Theorem consumeable_size_three_cases s :
  reachable s ->
  let continuous := value (ijcringbuffer_consumeable_size_continuous s) in
  let total := value (ijcringbuffer_consumeable_size s) in
  let masked_write := Z.land (write_cursor s) (mask s) in
  let tail := Z.land (usub (wrap_cursor s) (read_cursor s)) (mask s) in
  (ijcringbuffer__is_split s = false ->
   continuous = usub (write_cursor s) (read_cursor s) /\
   total = usub (write_cursor s) (read_cursor s)) /\
  (ijcringbuffer__is_split s = true -> read_cursor s = wrap_cursor s ->
   continuous = (if masked_write =? 0 then size s else masked_write) /\
   total = (if masked_write =? 0 then size s else masked_write)) /\
  (ijcringbuffer__is_split s = true -> read_cursor s <> wrap_cursor s ->
   continuous = tail /\ total = tail + masked_write).
Proof.
  intros Hs. pose proof (reachable_capacity s Hs) as Hcap.
  pose proof (capacity_le _ _ _ Hcap) as Hle.
  cbv zeta.
  unfold ijcringbuffer_consumeable_size_continuous, ijcringbuffer_consumeable_size,
    ijcringbuffer__consumeable_size, value, bind, ret, IJCRB_assert.
  assert (Hpw31 : size s <= 2147483648) by (rewrite <- pow31; exact Hle).
  pose proof (land_mask_range _ _ _ Hcap
                (usub (wrap_cursor s) (read_cursor s))) as Ht.
  pose proof (land_mask_range _ _ _ Hcap (write_cursor s)) as Hw.
  split; [|split]; intros Hsplit; rewrite Hsplit; cbn [fst].
  - split; reflexivity.
  - intros E. rewrite (proj2 (Z.eqb_eq _ _) E). cbn [fst]. unfold truthy.
    destruct (Z.land (write_cursor s) (mask s) =? 0); split; reflexivity.
  - intros N. rewrite (proj2 (Z.eqb_neq _ _) N). cbn [fst truthy Z.eqb negb].
    unfold uadd. rewrite Z.add_0_r.
    split; apply wrap_small; rewrite modulus_val; lia.
Qed.

Lemma regular_split_state : regular split_state.
Proof. apply regular_run; [apply regular_ring8 | reflexivity | reflexivity]. Qed.

Lemma reachable_split_state : reachable split_state.
Proof. apply regular_reachable, regular_split_state. Qed.

Lemma consumeable_size_three_cases_witness :
  reachable split_state /\
  value (ijcringbuffer_consumeable_size_continuous split_state) = 7 /\
  value (ijcringbuffer_consumeable_size split_state) = 8.
Proof.
  split; [exact reachable_split_state|].
  destruct (consumeable_size_three_cases split_state reachable_split_state)
    as (_ & _ & H).
  apply H; [reflexivity | discriminate].
Defined.

(** ** [peek] *)

(** C8: in every reachable state [peek] returns the pointer at offset
    [read_cursor & mask], except when the buffer is split and
    [read_cursor = wrap_cursor], where the offset is 0; the call leaves
    the structure (cursors and stored bytes) as it was; and the offset
    lies within the storage, also when the buffer is empty. *)
Theorem peek_offset s :
  reachable s ->
  fst (ijcringbuffer_peek s) =
    (if (read_cursor s =? wrap_cursor s) && ijcringbuffer__is_split s
     then 0 else Z.land (read_cursor s) (mask s)) /\
  snd (ijcringbuffer_peek s) = s /\
  0 <= fst (ijcringbuffer_peek s) < size s.
Proof.
  intros Hs. pose proof (reachable_capacity s Hs) as Hcap.
  pose proof (capacity_pos _ _ _ Hcap) as Hpos.
  pose proof (land_mask_range _ _ _ Hcap (read_cursor s)) as Hr.
  unfold ijcringbuffer_peek. cbn [fst snd].
  repeat split;
    destruct ((read_cursor s =? wrap_cursor s) && ijcringbuffer__is_split s); lia.
Qed.

Lemma peek_offset_witness :
  reachable ring8 /\ fst (ijcringbuffer_peek ring8) = 0 /\
  snd (ijcringbuffer_peek ring8) = ring8 /\
  0 <= fst (ijcringbuffer_peek ring8) < size ring8.
Proof.
  split; [exact reachable_ring8|].
  destruct (peek_offset ring8 reachable_ring8) as (H1 & H2 & H3).
  split; [exact H1|]. split; [exact H2 | exact H3].
Defined.

(** ** [produce]: the write to the back *)

(** C7 fails as stated: a full buffer, whose write cursor is at offset
    0, refuses one more byte although [size - 0 >= 1] (the first two
    calls of [ijcringbuffer_test]). *)
Lemma C7_counterexample : ~ C7_as_stated.
Proof.
  intros H.
  specialize (H full8 hex 1).
  assert (R : reachable full8)
    by (apply reachable_run; [apply reachable_ring8 | reflexivity]).
  specialize (H R ltac:(split; [discriminate | reflexivity])
                eq_refl eq_refl eq_refl).
  apply (f_equal fst) in H. vm_compute in H. discriminate.
Qed.

(** C7, amended: in an unsplit state in which the auto-reset does not
    apply and which is not sent to [check_front] (write cursor at offset
    0 while bytes are stored), a [produce] of [n] bytes with
    [size - (write_cursor & mask) >= n] copies the [n] bytes to offset
    [write_cursor & mask], advances [write_cursor] by exactly [n]
    and returns 1. *)
Theorem produce_room_at_back s d n :
  ijcringbuffer__is_split s = false ->
  auto_reset s n = false ->
  back_closed s = false ->
  (usub (size s) (Z.land (write_cursor s) (mask s)) >=? n) = true ->
  value (ijcringbuffer_produce s d n) =
  (1, set_write_cursor
        (set_data s (IJCRB_memcpy (data s)
                       (Z.land (write_cursor s) (mask s)) d n))
        (uadd (write_cursor s) n)).
Proof.
  unfold auto_reset, back_closed, ijcringbuffer_produce.
  intros -> -> -> ->. reflexivity.
Qed.

Lemma produce_room_at_back_witness :
  ijcringbuffer__is_split three_stored = false /\
  auto_reset three_stored 2 = false /\
  back_closed three_stored = false /\
  (usub (size three_stored)
        (Z.land (write_cursor three_stored) (mask three_stored)) >=? 2) = true /\
  value (ijcringbuffer_produce three_stored hex 2) =
  (1, set_write_cursor
        (set_data three_stored (IJCRB_memcpy (data three_stored) 3 hex 2))
        5).
Proof.
  do 4 (split; [reflexivity|]).
  exact (produce_room_at_back three_stored hex 2
           eq_refl eq_refl eq_refl eq_refl).
Defined.

(** ** Round trip: [produce], then [peek] *)

Lemma bytes_at_memcpy m off d n :
  bytes_at (IJCRB_memcpy m off d n) off n = bytes_at d 0 n.
Proof.
  unfold bytes_at. apply map_ext_in. intros i Hi. apply in_seq in Hi.
  unfold IJCRB_memcpy.
  assert (Hn : Z.of_nat i < n) by lia.
  rewrite (proj2 (Z.leb_le off (off + Z.of_nat i))) by lia.
  rewrite (proj2 (Z.ltb_lt (off + Z.of_nat i) (off + n))) by lia.
  cbn [andb]. f_equal. lia.
Qed.

(** The circular distance after a cursor moved [g] forward. *)
Lemma difference_forward a g :
  0 <= g < modulus ->
  ijcringbuffer__difference a (uadd a g) = Z.min g (wrap (- g)).
Proof.
  intros Hg. unfold ijcringbuffer__difference, uadd, usub.
  rewrite wrap_sub_l, wrap_sub_r.
  replace (a - (a + g)) with (- g) by lia.
  replace (a + g - a) with g by lia.
  rewrite (wrap_small g Hg).
  destruct (Z.gtb_spec (wrap (- g)) g); lia.
Qed.

(** C3 fails as stated: with bytes already stored, [peek] points at
    them and not at the bytes written last. After 012 the bytes 45 are
    appended, and [peek] reads 01. *)
Lemma C3_counterexample : ~ C3_as_stated.
Proof.
  intros H.
  specialize (H three_stored (shift hex 4) 2).
  assert (R : reachable three_stored)
    by (apply reachable_run; [apply reachable_ring8 | reflexivity]).
  specialize (H R ltac:(split; discriminate) eq_refl).
  vm_compute in H. discriminate.
Qed.

(** C3, amended: for every length [n] from 1 to the capacity, the [n]
    bytes at the pointer that [peek] returns right after a successful
    [produce] of [n] bytes into an empty buffer of capacity at most 2^30
    are the bytes written. *)
Theorem peek_after_produce_on_empty s d n :
  capacity 30 (size s) (mask s) ->
  ijcringbuffer_is_empty s = true ->
  1 <= n <= size s ->
  produce_ret s d n = 1 ->
  peek_bytes (produce_to s d n) n = bytes_at d 0 n.
Proof.
  intros Hcap He Hn _.
  pose proof (capacity_pos _ _ _ Hcap) as Hpos.
  pose proof (capacity_le _ _ _ Hcap) as Hle.
  change (2 ^ 30) with 1073741824 in Hle.
  pose proof (land_mask_range _ _ _ Hcap (write_cursor s)) as Hmw.
  assert (Hwc : write_cursor s = read_cursor s)
    by (apply Z.eqb_eq; exact He).
  assert (Hunsplit : ijcringbuffer__is_split s = false).
  { unfold ijcringbuffer__is_split, ijcringbuffer__difference, usub.
    rewrite Hwc, Z.sub_diag. cbn. apply gtb_false. lia. }
  unfold peek_bytes, produce_to, produce_ret, value, ijcringbuffer_produce.
  rewrite Hunsplit, He.
  unfold truthy.
  destruct (Z.eqb_spec (Z.land (write_cursor s) (mask s)) 0) as [E0|N0];
    cbn [negb andb].
  - (* write cursor at offset 0: written at the back, read at offset 0 *)
    rewrite E0. unfold usub. rewrite Z.sub_0_r.
    rewrite wrap_small by (rewrite modulus_val; lia).
    rewrite geb_true by lia. unfold ret, write_at_cursor. cbn [fst snd].
    cbn [write_cursor set_data]. rewrite E0.
    unfold ijcringbuffer_peek, ijcringbuffer__is_split.
    cbn [fst size mask read_cursor write_cursor wrap_cursor data
         set_write_cursor set_data].
    rewrite Hwc, difference_forward by (rewrite modulus_val; lia).
    rewrite (gtb_false (Z.min _ _)) by lia.
    rewrite andb_false_r. rewrite <- Hwc, E0.
    apply bytes_at_memcpy.
  - (* auto-reset: written and read at the front *)
    rewrite geb_true by lia. cbn [andb].
    unfold write_to_front, bind, ret. cbn [fst snd].
    assert (Hg : uadd (uadd (size s)
                         (usub (size s) (Z.land (write_cursor s) (mask s)))) n
                 = 2 * size s - Z.land (write_cursor s) (mask s) + n).
    { unfold uadd, usub.
      rewrite (wrap_small (size s - _)) by (rewrite modulus_val; lia).
      rewrite (wrap_small (size s + _)) by (rewrite modulus_val; lia).
      rewrite wrap_small by (rewrite modulus_val; lia). lia. }
    unfold ijcringbuffer_peek, ijcringbuffer__is_split, split_to_front.
    cbn [fst size mask read_cursor write_cursor wrap_cursor data
         set_write_cursor set_data set_wrap_cursor].
    rewrite Hg, Hwc, Z.eqb_refl. rewrite Hwc in Hmw, N0.
    set (g := 2 * size s - Z.land (read_cursor s) (mask s) + n).
    assert (Hgr : size s + 2 <= g <= 3 * size s - 1) by (unfold g; lia).
    rewrite difference_forward by (rewrite modulus_val; lia).
    rewrite wrap_neg by (rewrite modulus_val; lia).
    rewrite gtb_true by (rewrite modulus_val; lia).
    cbn [andb]. apply bytes_at_memcpy.
Qed.

Lemma peek_after_produce_on_empty_witness :
  capacity 30 (size empty_at_3) (mask empty_at_3) /\
  ijcringbuffer_is_empty empty_at_3 = true /\
  1 <= 8 <= size empty_at_3 /\
  produce_ret empty_at_3 hex 8 = 1 /\
  peek_bytes (produce_to empty_at_3 hex 8) 8 = bytes_at hex 0 8.
Proof.
  assert (C : capacity 30 (size empty_at_3) (mask empty_at_3)).
  { exists 3. split; [lia|]. split; reflexivity. }
  assert (N : 1 <= 8 <= size empty_at_3) by (split; discriminate).
  split; [exact C|]. split; [reflexivity|]. split; [exact N|].
  split; [reflexivity|].
  exact (peek_after_produce_on_empty empty_at_3 hex 8 C eq_refl N eq_refl).
Defined.

(** ** [consume] *)

Lemma regular_full_front : regular full_front.
Proof. apply regular_run; [apply regular_ring8 | reflexivity | reflexivity]. Qed.

(** C5 fails as stated: consuming all 8 bytes of [full_front], a state
    of regular use, leaves the read cursor at offset 0, not at offset
    8. *)
Lemma C5_counterexample : ~ C5_as_stated.
Proof.
  intros H.
  specialize (H full_front 8 (regular_reachable _ regular_full_front)
                ltac:(split; vm_compute; discriminate)).
  vm_compute in H. destruct H as (_ & H & _). discriminate.
Qed.

(** C5, amended: in every state reached in regular use (capacity at most
    2^29, no [produce] of zero bytes) and for every [n] up to the
    continuous size: if the buffer is split and
    [read_cursor = wrap_cursor], [consume] advances [read_cursor] by
    exactly [size + (size - (read_cursor & mask)) + n], after which
    [read_cursor & mask] is [n] modulo the size ([n] if [n < size], 0 if
    [n = size]) and the circular distance of the two cursors is at most
    [size]; in every other case it advances [read_cursor] by exactly
    [n]. Nothing else changes. *)
Theorem consume_advances_read_cursor s n :
  regular s ->
  0 <= n <= value (ijcringbuffer_consumeable_size_continuous s) ->
  let s' := consume_to s n in
  (if (read_cursor s =? wrap_cursor s) && ijcringbuffer__is_split s then
     read_cursor s' =
       uadd (read_cursor s)
         (uadd (uadd (size s)
                  (usub (size s) (Z.land (read_cursor s) (mask s)))) n) /\
     Z.land (read_cursor s') (mask s') = n mod size s /\
     ijcringbuffer__difference (read_cursor s') (write_cursor s') <= size s'
   else
     read_cursor s' = uadd (read_cursor s) n) /\
  s' = set_read_cursor s (read_cursor s').
Proof.
  intros Hs Hn. destruct (regular_describes s Hs) as [l Hd].
  unfold ijcringbuffer_consumeable_size_continuous in Hn.
  rewrite (observe_consumeable_size _ _ 1 Hd) in Hn.
  cbn [value fst truthy Z.eqb negb] in Hn.
  pose proof (consume_describes _ _ _ Hd Hn) as Hd'.
  pose proof (describes_size _ _ Hd) as Hsz.
  cbv zeta. unfold consume_to in *. rewrite consume_value in *.
  cbn [read_cursor write_cursor mask size set_read_cursor].
  split; [|reflexivity].
  destruct ((read_cursor s =? wrap_cursor s) && ijcringbuffer__is_split s) eqn:Hc;
    [|reflexivity].
  split; [reflexivity|].
  apply andb_true_iff in Hc. destruct Hc as [Hat Hsp].
  rewrite (observe_is_split _ _ Hd) in Hsp.
  destruct l as [B r c|V v t f]; [discriminate|].
  destruct (observe_at_wrap _ _ _ _ _ Hd) as [E _].
  rewrite E in Hat. apply Z.eqb_eq in Hat. subst t.
  cbn [first_run Z.eqb consume_layout] in Hn, Hd'.
  pose proof (observe_is_split _ _ Hd') as Hun.
  pose proof (observe_read_offset _ _ Hd') as Hro.
  cbn [read_cursor write_cursor mask size set_read_cursor] in Hun, Hro.
  unfold ijcringbuffer__is_split in Hun.
  cbn [read_cursor write_cursor mask size set_read_cursor] in Hun.
  assert (Hf : 1 <= f <= size s) by (destruct Hd as (_ & Hok & _); apply Hok).
  destruct (Z.eqb_spec n (size s)) as [->|Nn]; cbn [is_split_layout] in Hun, Hro.
  - rewrite Hro, Z_mod_same_full. split; [reflexivity|].
    rewrite Z.gtb_ltb in Hun. apply Z.ltb_ge in Hun. exact Hun.
  - rewrite Hro, Z.mod_small by lia. split; [reflexivity|].
    rewrite Z.gtb_ltb in Hun. apply Z.ltb_ge in Hun. exact Hun.
Qed.

Lemma consume_advances_read_cursor_witness :
  regular full_front /\
  0 <= 8 <= value (ijcringbuffer_consumeable_size_continuous full_front) /\
  read_cursor (consume_to full_front 8) = 24 /\
  Z.land (read_cursor (consume_to full_front 8))
         (mask (consume_to full_front 8)) = 0 /\
  ijcringbuffer__difference (read_cursor (consume_to full_front 8))
      (write_cursor (consume_to full_front 8)) <= 8.
Proof.
  assert (R := regular_full_front).
  assert (N : 0 <= 8 <= value (ijcringbuffer_consumeable_size_continuous full_front))
    by (split; vm_compute; discriminate).
  split; [exact R|]. split; [exact N|].
  destruct (consume_advances_read_cursor full_front 8 R N) as [H _].
  exact H.
Defined.

(** ** Regular use

    With a capacity of at most 2^29 and no [produce] of zero bytes the
    sizes, the emptiness test, [consume] and [produce] agree with the
    layout, and every assertion holds but the one after [write_to_front]
    when the whole capacity is written at once. *)

Lemma layout_stored_bounds sz l :
  layout_ok sz l -> 0 <= stored l <= sz /\ 0 <= first_run l <= stored l.
Proof.
  destruct l as [B r c|V v t f]; cbn [layout_ok stored first_run].
  - intros (_ & Hr & Hc & Hrc). lia.
  - intros (_ & Hv & Ht & Hf & Hfit).
    destruct (Z.eqb_spec t 0); lia.
Qed.

(** In regular use the total consumable size is at most the size, the
    assertions of [consumeable_size] hold, and [is_full] tells whether
    the two are equal (what C2 asks). *)
Theorem regular_consumeable_size_bounded s :
  regular s ->
  0 <= value (ijcringbuffer_consumeable_size s) <= size s /\
  asserts_ok (ijcringbuffer_consumeable_size s) = true /\
  value (ijcringbuffer_is_full s)
  = (value (ijcringbuffer_consumeable_size s) =? size s).
Proof.
  intros Hs. destruct (regular_describes s Hs) as [l Hd].
  unfold ijcringbuffer_is_full, ijcringbuffer_consumeable_size.
  rewrite (observe_consumeable_size _ _ 0 Hd).
  cbn [value asserts_ok fst snd truthy Z.eqb negb bind ret].
  destruct Hd as (_ & Hok & _).
  pose proof (layout_stored_bounds _ _ Hok). repeat split; lia.
Qed.

(** In regular use the total consumable size is 0 exactly when the
    buffer is empty, and a split buffer is not empty (what C9 asks). *)
Theorem regular_empty_iff s :
  regular s ->
  (value (ijcringbuffer_consumeable_size s) = 0 <->
   ijcringbuffer_is_empty s = true) /\
  (ijcringbuffer__is_split s = true ->
   0 < value (ijcringbuffer_consumeable_size s)).
Proof.
  intros Hs. destruct (regular_describes s Hs) as [l Hd].
  unfold ijcringbuffer_consumeable_size.
  rewrite (observe_consumeable_size _ _ 0 Hd), (observe_is_empty _ _ Hd),
    (observe_is_split _ _ Hd).
  cbn [value fst truthy Z.eqb negb]. split.
  - symmetry. apply Z.eqb_eq.
  - destruct Hd as (_ & Hok & _).
    destruct l as [B r c|V v t f]; cbn [is_split_layout stored layout_ok] in *;
      [discriminate|]. lia.
Qed.

(** In regular use [consume] of [n] bytes, [n] at most the continuous
    size, takes [n] off the total consumable size, in both of its
    branches, and its assertion holds (what C10 asks). *)
Theorem regular_consume_releases s n :
  regular s ->
  0 <= n <= value (ijcringbuffer_consumeable_size_continuous s) ->
  value (ijcringbuffer_consumeable_size (consume_to s n))
  = value (ijcringbuffer_consumeable_size s) - n /\
  asserts_ok (ijcringbuffer_consume s n) = true.
Proof.
  intros Hs Hn. destruct (regular_describes s Hs) as [l Hd].
  unfold ijcringbuffer_consumeable_size_continuous in Hn.
  rewrite (observe_consumeable_size _ _ 1 Hd) in Hn.
  cbn [value fst truthy Z.eqb negb] in Hn.
  pose proof (consume_describes _ _ _ Hd Hn) as Hd'.
  unfold ijcringbuffer_consumeable_size.
  rewrite (observe_consumeable_size _ _ 0 Hd'),
    (observe_consumeable_size _ _ 0 Hd).
  cbn [value fst truthy Z.eqb negb].
  split; [apply stored_consume_layout|].
  apply (consume_asserts _ _ _ Hd). lia.
Qed.

Lemma stored_produce_layout sz l n :
  place sz l n <> Nowhere ->
  stored (produce_layout sz l n) = stored l + n.
Proof.
  unfold produce_layout. intros Hp.
  destruct (place sz l n) eqn:E; [| |contradiction].
  - destruct l; cbn [stored]; lia.
  - apply place_at_front in E.
    destruct l as [B r c|V v t f]; [|contradiction].
    destruct (r + c =? sz); cbn [stored]; lia.
Qed.

(** In regular use a [produce] either fails and changes nothing, or
    copies its [n] bytes to [n] consecutive bytes of the storage,
    advances [write_cursor] and adds [n] to the total consumable size
    (what C1 asks). *)
Theorem regular_produce_all_or_nothing s d n :
  regular s -> 0 < n < modulus ->
  value (ijcringbuffer_produce s d n) = (0, s) \/
  exists off,
    0 <= off /\ off + n <= size s /\
    produce_ret s d n = 1 /\
    data (produce_to s d n) = IJCRB_memcpy (data s) off d n /\
    read_cursor (produce_to s d n) = read_cursor s /\
    (write_cursor (produce_to s d n) = uadd (write_cursor s) n \/
     write_cursor (produce_to s d n) =
       uadd (write_cursor s)
         (uadd (uadd (size s)
                  (usub (size s) (Z.land (write_cursor s) (mask s)))) n)) /\
    value (ijcringbuffer_consumeable_size (produce_to s d n))
    = value (ijcringbuffer_consumeable_size s) + n.
Proof.
  intros Hs Hn. destruct (regular_describes s Hs) as [l Hd].
  pose proof (produce_describes _ _ d _ Hd Hn) as Hd'.
  pose proof (describes_size _ _ Hd) as Hsz.
  assert (Hcs : place (size s) l n <> Nowhere ->
     value (ijcringbuffer_consumeable_size (produce_to s d n))
     = value (ijcringbuffer_consumeable_size s) + n).
  { intros Hp. unfold ijcringbuffer_consumeable_size.
    rewrite (observe_consumeable_size _ _ 0 Hd'),
      (observe_consumeable_size _ _ 0 Hd).
    cbn [value fst truthy Z.eqb negb]. apply stored_produce_layout, Hp. }
  pose proof (observe_write_offset _ _ Hd) as Hmw.
  unfold produce_to, produce_ret, value in *.
  rewrite (produce_on_layout _ _ d _ Hd Hn) in *.
  destruct (place (size s) l n) eqn:Hp; cbn [fst snd] in *.
  - right. exists (Z.land (write_cursor s) (mask s)).
    pose proof (land_mask_range _ _ _ (proj1 Hd) (write_cursor s)) as Hr.
    apply place_at_cursor in Hp.
    split; [lia|]. split.
    + destruct Hd as (_ & Hok & _).
      destruct l as [B r c|V v t f]; cbn [layout_ok] in Hok; rewrite Hmw.
      * destruct Hok as (_ & ? & ? & ?).
        pose proof (Z.mod_le (r + c) (size s) ltac:(lia) ltac:(lia)). lia.
      * destruct (Z.eqb_spec t 0) as [->|Hnz].
        -- destruct Hok as (_ & ? & ? & ? & ?).
           pose proof (Z.mod_le f (size s) ltac:(lia) ltac:(lia)). lia.
        -- destruct (split_tail_fits _ _ _ _ _ Hok Hnz) as (? & ? & ? & ? & ? & ?).
           rewrite Z.mod_small by lia. lia.
    + repeat split; try reflexivity.
      * left. reflexivity.
      * apply Hcs. discriminate.
  - right. exists 0.
    apply place_at_front in Hp.
    destruct l as [B r c|V v t f]; [|contradiction].
    destruct Hd as (_ & Hok & _). cbn [layout_ok] in Hok.
    split; [lia|]. split; [lia|].
    repeat split; try reflexivity.
    + right. reflexivity.
    + apply Hcs. discriminate.
  - left. reflexivity.
Qed.

(** ** [produce]: the write to the front *)

Lemma front_path_produce s d n :
  front_path s n = true ->
  ijcringbuffer_produce s d n = write_to_front s d n.
Proof.
  unfold front_path, auto_reset, back_closed, ijcringbuffer_produce, check_front.
  intros H. apply andb_true_iff in H. destruct H as [Hu H].
  apply negb_true_iff in Hu. rewrite Hu.
  destruct (truthy (Z.land (write_cursor s) (mask s))
            && ijcringbuffer_is_empty s && (size s >=? n)); [reflexivity|].
  cbn [orb] in H. apply andb_true_iff in H. destruct H as [H Hf].
  rewrite Hf.
  destruct (negb (truthy (Z.land (write_cursor s) (mask s)))
            && negb (ijcringbuffer_is_empty s)); [reflexivity|].
  cbn [orb] in H. apply negb_true_iff in H. rewrite H. reflexivity.
Qed.

(** The inflation of the write cursor takes the cursors more than [size]
    apart. *)
Lemma split_to_front_is_split B r c s d n :
  describes (Unsplit B r c) s -> 0 <= n <= size s ->
  ijcringbuffer__is_split (split_to_front s d n) = true.
Proof.
  intros Hd Hn. pose proof (describes_size _ _ Hd) as Hsz.
  pose proof (observe_write_offset _ _ Hd) as Hmw. cbn in Hmw.
  destruct Hd as (Hcap & Hok & Hcur). cbn [layout_ok] in Hok.
  destruct Hok as (_ & Hr & Hc & Hrc). destruct Hcur as (Hrd & Hwc).
  pose proof (Z.mod_pos_bound (r + c) (size s) ltac:(lia)) as Hm.
  unfold ijcringbuffer__is_split, split_to_front.
  cbn [size mask read_cursor write_cursor wrap_cursor set_write_cursor set_data
       set_wrap_cursor].
  rewrite Hmw, Hrd, Hwc.
  set (m := (r + c) mod size s) in *.
  replace (uadd (wrap (B + r + c)) (uadd (uadd (size s) (usub (size s) m)) n))
    with (wrap ((B + r) + (c + 2 * size s - m + n))).
  - destruct (difference_gap (B + r) (c + 2 * size s - m + n)) as [E _].
    { rewrite pow31. lia. }
    rewrite E. apply gtb_true. lia.
  - clear. wrap_eq.
Qed.

(** In regular use, a [produce] of less than [size] bytes that takes the
    path to [write_to_front] leaves [write_cursor & mask] equal to the
    number of bytes written, as asserted, and the buffer split (what C6
    asks, but for a write of the whole capacity). *)
Theorem regular_front_write s d n :
  regular s -> 0 < n < size s ->
  front_path s n = true ->
  Z.land (write_cursor (produce_to s d n)) (mask (produce_to s d n)) = n /\
  ijcringbuffer__is_split (produce_to s d n) = true /\
  asserts_ok (ijcringbuffer_produce s d n) = true.
Proof.
  intros Hs Hn Hp. destruct (regular_describes s Hs) as [l Hd].
  pose proof (describes_size _ _ Hd) as Hsz.
  assert (Hoff := split_to_front_offset s d n
                    (capacity_weaken 29 31 _ _ ltac:(lia) (proj1 Hd))).
  rewrite Z.mod_small in Hoff by lia.
  unfold produce_to, value, asserts_ok.
  rewrite (front_path_produce _ _ _ Hp).
  unfold write_to_front, bind, ret, IJCRB_assert. cbn [fst snd].
  replace (mask (split_to_front s d n)) with (mask s) by reflexivity.
  rewrite Hoff, Z.eqb_refl. split; [reflexivity|]. split; [|reflexivity].
  unfold front_path in Hp. apply andb_true_iff in Hp. destruct Hp as [Hu _].
  apply negb_true_iff in Hu. rewrite (observe_is_split _ _ Hd) in Hu.
  destruct l as [B r c|V v t f]; [|discriminate].
  apply (split_to_front_is_split _ _ _ _ _ _ Hd). lia.
Qed.

(** The theorems of regular use, on the split buffer of
    [ijcringbuffer_test]. *)
Example regular_use_of_split_state :
  value (ijcringbuffer_consumeable_size split_state) <= size split_state /\
  (value (ijcringbuffer_consumeable_size split_state) = 0 <->
   ijcringbuffer_is_empty split_state = true) /\
  value (ijcringbuffer_consumeable_size (consume_to split_state 7)) = 8 - 7 /\
  value (ijcringbuffer_produce split_state hex 1) = (0, split_state).
Proof.
  assert (R := regular_split_state).
  split; [apply (regular_consumeable_size_bounded _ R)|].
  split; [apply (regular_empty_iff _ R)|].
  split.
  - apply (regular_consume_releases _ 7 R). split; vm_compute; discriminate.
  - destruct (regular_produce_all_or_nothing split_state hex 1 R
                ltac:(split; reflexivity)) as [H|(off & _ & _ & H & _)].
    + exact H.
    + vm_compute in H. discriminate H.
Qed.

(** A write of 3 bytes to the front of the empty buffer whose cursors
    stand at offset 1. *)
Example regular_front_write_of_3 :
  Z.land (write_cursor (produce_to empty_at_1 hex 3))
         (mask (produce_to empty_at_1 hex 3)) = 3 /\
  ijcringbuffer__is_split (produce_to empty_at_1 hex 3) = true /\
  asserts_ok (ijcringbuffer_produce empty_at_1 hex 3) = true.
Proof.
  apply regular_front_write; [|split; reflexivity|reflexivity].
  apply regular_run; [apply regular_ring8 | reflexivity | reflexivity].
Qed.

(** ** Where the code breaks its own assertions *)

(** *** A [produce] of zero bytes *)

Lemma reachable_zero_reset : reachable zero_reset.
Proof. apply reachable_run; [apply reachable_ring8 | reflexivity]. Qed.

Lemma reachable_zero_on_full : reachable zero_on_full.
Proof. apply reachable_run; [apply reachable_ring8 | reflexivity]. Qed.

(** C2 fails on the code: after [produce] of 1 byte, [consume 1],
    [produce] of 0 bytes and [consume 1] on an 8 byte buffer, none of
    which fails an assertion, [consumeable_size] is 2^32 - 1, more than
    the size, and its own assertion [size >= cs] fails. *)
Theorem consumeable_size_exceeds_size :
  reachable (run zero_reset [ConsumeCall 1]) /\
  run_asserts ring8 [ProduceCall hex 1; ConsumeCall 1; ProduceCall hex 0;
                     ConsumeCall 1] = true /\
  size (run zero_reset [ConsumeCall 1]) = 8 /\
  value (ijcringbuffer_consumeable_size (run zero_reset [ConsumeCall 1]))
  = 4294967295 /\
  asserts_ok (ijcringbuffer_consumeable_size (run zero_reset [ConsumeCall 1]))
  = false.
Proof.
  split; [|repeat split; reflexivity].
  apply reachable_run; [apply reachable_zero_reset | reflexivity].
Qed.

(** C9 fails on the code: after [produce] of 8 bytes and [produce] of 0
    bytes on an 8 byte buffer, neither of which fails an assertion, the
    buffer is split and not empty, and [consumeable_size] is 0; the
    assertion on the tail of the split buffer fails. *)
Theorem consumeable_size_zero_not_empty :
  reachable zero_on_full /\
  run_asserts ring8 [ProduceCall hex 8; ProduceCall hex 0] = true /\
  ijcringbuffer__is_split zero_on_full = true /\
  ijcringbuffer_is_empty zero_on_full = false /\
  value (ijcringbuffer_consumeable_size zero_on_full) = 0 /\
  asserts_ok (ijcringbuffer_consumeable_size zero_on_full) = false.
Proof.
  split; [exact reachable_zero_on_full | repeat split; reflexivity].
Qed.

(** C10 fails on the code: in the state [zero_reset], reached without a
    failed assertion, the continuous and the total consumable size are 8;
    [consume 1] passes its assertion and leaves a total of 2^32 - 1,
    not 7. *)
Theorem consume_does_not_release :
  reachable zero_reset /\
  run_asserts ring8 [ProduceCall hex 1; ConsumeCall 1; ProduceCall hex 0]
  = true /\
  value (ijcringbuffer_consumeable_size_continuous zero_reset) = 8 /\
  value (ijcringbuffer_consumeable_size zero_reset) = 8 /\
  asserts_ok (ijcringbuffer_consume zero_reset 1) = true /\
  value (ijcringbuffer_consumeable_size (consume_to zero_reset 1))
  = 4294967295.
Proof.
  split; [exact reachable_zero_reset | repeat split; reflexivity].
Qed.

Lemma reachable_astray : reachable astray.
Proof.
  apply reachable_run; [|reflexivity].
  apply (reachable_init zeroes 4); [split|]; reflexivity || discriminate.
Qed.

(** C1 fails on the code: in the reachable state [astray] of a 4 byte
    buffer, [produce] of 3 bytes returns 1 and copies them to offset 2:
    the third byte lands at offset 4, past the end of the storage. The
    assertion on the two offsets of a split buffer fails in that call. *)
Theorem produce_writes_past_storage :
  reachable astray /\
  size astray = 4 /\
  produce_ret astray hex 3 = 1 /\
  value (ijcringbuffer_produce astray hex 3) = write_at_cursor astray hex 3 /\
  Z.land (write_cursor astray) (mask astray) = 2 /\
  size astray < Z.land (write_cursor astray) (mask astray) + 3 /\
  data astray 4 = x00 /\
  data (produce_to astray hex 3) 4 = x32 /\
  asserts_ok (ijcringbuffer_produce astray hex 3) = false.
Proof.
  split; [exact reachable_astray | repeat split; reflexivity].
Qed.

(** *** A [produce] of the whole capacity at the front *)

(** C6 fails on the code: on an empty 8 byte buffer whose cursors
    stand at offset 1, reached in regular use, [produce] of 8 bytes takes
    the auto-reset path to [write_to_front] and returns 1; afterwards
    [write_cursor & mask] is 0, not 8, and the assertion
    [(write_cursor & mask) == insize] fails. The buffer is split. *)
Theorem front_write_of_capacity_fails_assertion :
  regular empty_at_1 /\
  front_path empty_at_1 8 = true /\
  auto_reset empty_at_1 8 = true /\
  produce_ret empty_at_1 hex 8 = 1 /\
  Z.land (write_cursor (produce_to empty_at_1 hex 8))
         (mask (produce_to empty_at_1 hex 8)) = 0 /\
  asserts_ok (ijcringbuffer_produce empty_at_1 hex 8) = false /\
  ijcringbuffer__is_split (produce_to empty_at_1 hex 8) = true.
Proof.
  split; [|repeat split; reflexivity].
  apply regular_run; [apply regular_ring8 | reflexivity | reflexivity].
Qed.

(** *** Capacities of 2^31 and 2^30 bytes *)

(** With 2^31 bytes of storage the inflation of the write cursor is a
    multiple of 2^32. A byte written through the auto-reset leaves the
    buffer unsplit and empty, and is not the byte [peek] shows: the
    bound on the capacity in the round trip is needed. *)
Lemma front_write_at_capacity_2_31 :
  reachable empty_2_31 /\ ijcringbuffer_is_empty empty_2_31 = true /\
  front_path empty_2_31 1 = true /\
  produce_ret empty_2_31 (shift hex 4) 1 = 1 /\
  ijcringbuffer__is_split (produce_to empty_2_31 (shift hex 4) 1) = false /\
  ijcringbuffer_is_empty (produce_to empty_2_31 (shift hex 4) 1) = true /\
  peek_bytes (produce_to empty_2_31 (shift hex 4) 1) 1
  <> bytes_at (shift hex 4) 0 1.
Proof.
  split; [|repeat split; try reflexivity].
  - apply reachable_run; [|reflexivity].
    apply (reachable_init zeroes (2 ^ 31)); [split|];
      reflexivity || discriminate.
  - vm_compute. discriminate.
Qed.

(** With 2^30 bytes of storage a front write that follows a full buffer
    takes the cursors 3 * 2^30 apart, which the test of the split state
    reads as a distance of 2^30: the buffer is not seen as split and
    reports 3 * 2^30 stored bytes. *)
Lemma front_write_at_capacity_2_30 :
  reachable wrapped_2_30 /\
  size wrapped_2_30 = 2 ^ 30 /\
  ijcringbuffer__is_split wrapped_2_30 = false /\
  value (ijcringbuffer_consumeable_size wrapped_2_30) = 3 * 2 ^ 30.
Proof.
  split; [|repeat split; reflexivity].
  apply reachable_run; [|reflexivity].
  apply (reachable_init zeroes (2 ^ 30)); [split|];
    reflexivity || discriminate.
Qed.

(** * Part III: more of the code *)

(** ** The circular distance *)

Lemma difference_min a b :
  ijcringbuffer__difference a b = Z.min (usub a b) (usub b a).
Proof.
  unfold ijcringbuffer__difference.
  destruct (Z.gtb_spec (usub a b) (usub b a)); lia.
Qed.

Lemma usub_opposite a b :
  (usub a b = 0 /\ usub b a = 0) \/
  (0 < usub a b < modulus /\ usub b a = modulus - usub a b).
Proof.
  unfold usub, wrap, modulus. change (2 ^ 32) with 4294967296.
  Z.div_mod_to_equations. lia.
Qed.

Lemma usub_zero a b : usub a b = 0 <-> wrap a = wrap b.
Proof.
  unfold usub, wrap, modulus. change (2 ^ 32) with 4294967296.
  Z.div_mod_to_equations. lia.
Qed.

Lemma difference_le_half a b : 0 <= ijcringbuffer__difference a b <= 2 ^ 31.
Proof.
  rewrite difference_min, pow31. pose proof modulus_val as M.
  destruct (usub_opposite a b) as [[E1 E2]|[H E]]; lia.
Qed.

(** X1: the circular distance is symmetric, at most half the range of an
    [unsigned], and 0 exactly between equal cursors. *)
Theorem difference_is_a_distance a b :
  ijcringbuffer__difference a b = ijcringbuffer__difference b a /\
  0 <= ijcringbuffer__difference a b <= 2 ^ 31 /\
  (ijcringbuffer__difference a b = 0 <-> wrap a = wrap b).
Proof.
  split; [rewrite !difference_min; apply Z.min_comm|].
  split; [apply difference_le_half|].
  rewrite difference_min, <- usub_zero. pose proof modulus_val as M.
  destruct (usub_opposite a b) as [[E1 E2]|[H E]]; lia.
Qed.

(** X2: with 2^31 bytes of storage, the largest capacity [ijcringbuffer_init]
    accepts, no state is seen as split. *)
Theorem never_split_at_capacity_2_31 s :
  2 ^ 31 <= size s -> ijcringbuffer__is_split s = false.
Proof.
  intros H. unfold ijcringbuffer__is_split. apply gtb_false.
  pose proof (difference_le_half (read_cursor s) (write_cursor s)). lia.
Qed.

Lemma never_split_at_capacity_2_31_witness :
  2 ^ 31 <= size (produce_to empty_2_31 hex 1) /\
  ijcringbuffer__is_split (produce_to empty_2_31 hex 1) = false.
Proof.
  assert (H : 2 ^ 31 <= size (produce_to empty_2_31 hex 1))
    by (vm_compute; discriminate).
  split; [exact H|].
  exact (never_split_at_capacity_2_31 (produce_to empty_2_31 hex 1) H).
Defined.

(** ** [ijcringbuffer_init] and [ijcringbuffer_reset] *)

Lemma init_accepts_pow2 d k :
  0 <= k <= 31 -> asserts_ok (ijcringbuffer_init d (2 ^ k)) = true.
Proof.
  intros Hk.
  assert (Hp : 0 < 2 ^ k) by (apply Z.pow_pos_nonneg; lia).
  assert (Hm : 2 ^ k < modulus).
  { unfold modulus. apply Z.pow_lt_mono_r; lia. }
  unfold ijcringbuffer_init, asserts_ok, bind, IJCRB_assert, ret. cbn [fst snd].
  rewrite andb_true_r. apply andb_true_iff. split; [apply gtb_true; lia|].
  unfold truthy. rewrite negb_involutive. apply Z.eqb_eq.
  unfold usub. rewrite wrap_small by lia.
  rewrite Z.sub_1_r, <- Z.ones_equiv, Z.land_ones by lia.
  apply Z_mod_same_full.
Qed.

(** X3: [ijcringbuffer_init] passes its assertion on exactly the 32 powers
    of two that an [unsigned] holds (0 is refused); it then leaves an
    empty buffer on the given storage with [mask = size - 1] and the
    three cursors at 0. *)
Theorem init_accepts_powers_of_two d data_size :
  0 <= data_size < modulus ->
  (asserts_ok (ijcringbuffer_init d data_size) = true <->
   exists k, 0 <= k <= 31 /\ data_size = 2 ^ k) /\
  value (ijcringbuffer_init d data_size)
  = mk_ijcringbuffer d data_size (wrap (data_size - 1)) 0 0 0 /\
  (asserts_ok (ijcringbuffer_init d data_size) = true ->
   mask (value (ijcringbuffer_init d data_size)) = data_size - 1 /\
   ijcringbuffer_is_empty (value (ijcringbuffer_init d data_size)) = true /\
   value (ijcringbuffer_consumeable_size
            (value (ijcringbuffer_init d data_size))) = 0).
Proof.
  intros Hr. split; [split|split].
  - intros Ha. destruct (init_capacity d data_size Hr Ha)
      as ((k & Hk & Ek & _) & Es & _).
    exists k. rewrite Es in Ek. auto.
  - intros (k & Hk & ->). apply init_accepts_pow2, Hk.
  - reflexivity.
  - intros Ha. destruct (init_capacity d data_size Hr Ha)
      as ((k & Hk & Ek & Em) & Es & _).
    rewrite Em, Es. split; [reflexivity|]. split; [reflexivity|].
    unfold ijcringbuffer_consumeable_size, ijcringbuffer__consumeable_size,
      ijcringbuffer__is_split, value, bind, ret.
    cbn [ijcringbuffer_init IJCRB_assert bind ret fst snd size mask
         read_cursor write_cursor wrap_cursor].
    change (ijcringbuffer__difference 0 0) with 0.
    rewrite gtb_false by lia. reflexivity.
Qed.

Lemma init_accepts_powers_of_two_witness :
  0 <= 8 < modulus /\
  asserts_ok (ijcringbuffer_init zeroes 8) = true /\
  asserts_ok (ijcringbuffer_init zeroes 0) = false /\
  asserts_ok (ijcringbuffer_init zeroes 12) = false.
Proof.
  assert (H8 : 0 <= 8 < modulus) by (split; [discriminate|reflexivity]).
  assert (H0 : 0 <= 0 < modulus) by (split; [discriminate|reflexivity]).
  assert (H12 : 0 <= 12 < modulus) by (split; [discriminate|reflexivity]).
  split; [exact H8|]. split; [|split].
  - destruct (init_accepts_powers_of_two zeroes 8 H8) as [[_ H] _].
    apply H. exists 3. split; [lia|reflexivity].
  - reflexivity.
  - reflexivity.
Defined.

(** X4: [ijcringbuffer_reset] on a reachable buffer is [ijcringbuffer_init]
    on its storage and size, whose assertion holds; so with a capacity
    of at most 2^29 it brings every reachable state, also one that a
    [produce] of zero bytes led astray, back to regular use. *)
Theorem reset_is_init s :
  reachable s ->
  ijcringbuffer_reset s = value (ijcringbuffer_init (data s) (size s)) /\
  asserts_ok (ijcringbuffer_init (data s) (size s)) = true /\
  (size s <= 2 ^ 29 -> regular (ijcringbuffer_reset s)).
Proof.
  intros Hs. destruct (reachable_capacity s Hs) as (k & Hk & Ek & Em).
  assert (Hp : 0 < 2 ^ k) by (apply Z.pow_pos_nonneg; lia).
  assert (Hm : 2 ^ k < modulus).
  { unfold modulus. apply Z.pow_lt_mono_r; lia. }
  assert (Ha : asserts_ok (ijcringbuffer_init (data s) (size s)) = true)
    by (rewrite Ek; apply init_accepts_pow2, Hk).
  assert (E : ijcringbuffer_reset s
              = value (ijcringbuffer_init (data s) (size s))).
  { unfold ijcringbuffer_reset, ijcringbuffer_init, value, bind, ret.
    cbn [fst]. f_equal. rewrite Em. unfold usub.
    rewrite wrap_small by lia. reflexivity. }
  split; [exact E|]. split; [exact Ha|].
  intros Hle. rewrite E. apply regular_init; [lia | exact Ha].
Qed.

Lemma reset_is_init_witness :
  reachable astray /\ size astray <= 2 ^ 29 /\
  regular (ijcringbuffer_reset astray).
Proof.
  assert (H : size astray <= 2 ^ 29) by (vm_compute; discriminate).
  split; [exact reachable_astray|]. split; [exact H|].
  apply (reset_is_init astray reachable_astray). exact H.
Defined.

(** ** The two runs of a buffer in regular use *)

Lemma observe_continuous l s :
  describes l s ->
  value (ijcringbuffer_consumeable_size_continuous s) = first_run l.
Proof.
  intros Hd. unfold ijcringbuffer_consumeable_size_continuous.
  rewrite (observe_consumeable_size _ _ 1 Hd). reflexivity.
Qed.

Lemma observe_total l s :
  describes l s ->
  value (ijcringbuffer_consumeable_size s) = stored l.
Proof.
  intros Hd. unfold ijcringbuffer_consumeable_size.
  rewrite (observe_consumeable_size _ _ 0 Hd). reflexivity.
Qed.

Lemma observe_peek l s :
  describes l s ->
  fst (ijcringbuffer_peek s) =
  match l with
  | Unsplit _ r _ => r
  | Split _ v t _ => if t =? 0 then 0 else (v - t) mod size s
  end.
Proof.
  intros Hd. unfold ijcringbuffer_peek. cbn [fst].
  rewrite (observe_is_split _ _ Hd), (observe_read_offset _ _ Hd).
  destruct l as [B r c|V v t f]; cbn [is_split_layout].
  - rewrite andb_false_r. reflexivity.
  - destruct (observe_at_wrap _ _ _ _ _ Hd) as [E _]. rewrite E, andb_true_r.
    reflexivity.
Qed.

(** X5: in regular use the continuous size is at most the total size, the
    two are equal when the buffer is not split, and the continuous size
    is 0 only when nothing is stored: a reader that consumes the
    continuous size makes progress as long as bytes are stored. *)
Theorem continuous_size_makes_progress s :
  regular s ->
  0 <= value (ijcringbuffer_consumeable_size_continuous s)
    <= value (ijcringbuffer_consumeable_size s) /\
  (ijcringbuffer__is_split s = false ->
   value (ijcringbuffer_consumeable_size_continuous s)
   = value (ijcringbuffer_consumeable_size s)) /\
  (value (ijcringbuffer_consumeable_size_continuous s) = 0 <->
   ijcringbuffer_is_empty s = true).
Proof.
  intros Hs. destruct (regular_describes s Hs) as [l Hd].
  rewrite (observe_continuous _ _ Hd), (observe_total _ _ Hd),
    (observe_is_split _ _ Hd), (observe_is_empty _ _ Hd).
  destruct Hd as (_ & Hok & _).
  pose proof (layout_stored_bounds _ _ Hok) as Hb.
  split; [lia|]. split.
  - destruct l; cbn [is_split_layout first_run stored]; [reflexivity|discriminate].
  - rewrite Z.eqb_eq.
    destruct l as [B r c|V v t f]; cbn [first_run stored layout_ok] in *;
      [reflexivity|].
    destruct (Z.eqb_spec t 0); lia.
Qed.

Lemma continuous_size_makes_progress_witness :
  regular split_state /\
  0 <= value (ijcringbuffer_consumeable_size_continuous split_state)
    <= value (ijcringbuffer_consumeable_size split_state).
Proof.
  split; [exact regular_split_state|].
  exact (proj1 (continuous_size_makes_progress split_state regular_split_state)).
Defined.

Lemma first_run_after_first_run sz l :
  layout_ok sz l ->
  first_run (consume_layout sz l (first_run l))
  = stored (consume_layout sz l (first_run l)).
Proof.
  destruct l as [B r c|V v t f]; cbn [layout_ok first_run consume_layout].
  - intros _. destruct (r + c =? sz); reflexivity.
  - intros (_ & Hv & Ht & Hf & Hfit).
    destruct (Z.eqb_spec t 0) as [->|Hnz].
    + destruct (f =? sz); reflexivity.
    + cbn [first_run stored]. rewrite Z.sub_diag. reflexivity.
Qed.

(** X6: in regular use two calls of [consume], each with the continuous
    size of the moment, empty the buffer: at most two runs are stored.
    Both calls pass their assertion. *)
Theorem two_consumes_drain s :
  regular s ->
  let s1 :=
    consume_to s (value (ijcringbuffer_consumeable_size_continuous s)) in
  let s2 :=
    consume_to s1 (value (ijcringbuffer_consumeable_size_continuous s1)) in
  ijcringbuffer_is_empty s2 = true /\
  value (ijcringbuffer_consumeable_size s2) = 0 /\
  ijcringbuffer__is_split s2 = false.
Proof.
  intros Hs. destruct (regular_describes s Hs) as [l Hd]. cbv zeta.
  rewrite (observe_continuous _ _ Hd).
  assert (Hok : layout_ok (size s) l) by apply Hd.
  pose proof (layout_stored_bounds _ _ Hok) as Hb.
  assert (Hd1 := consume_describes _ _ (first_run l) Hd ltac:(lia)).
  set (s1 := consume_to s (first_run l)) in *.
  set (l1 := consume_layout (size s) l (first_run l)) in *.
  rewrite (observe_continuous _ _ Hd1).
  assert (Hok1 : layout_ok (size s1) l1) by apply Hd1.
  pose proof (layout_stored_bounds _ _ Hok1) as Hb1.
  assert (Hd2 := consume_describes _ _ (first_run l1) Hd1 ltac:(lia)).
  assert (E : stored (consume_layout (size s1) l1 (first_run l1)) = 0).
  { rewrite stored_consume_layout. unfold l1.
    rewrite (first_run_after_first_run _ _ Hok). lia. }
  rewrite (observe_is_empty _ _ Hd2), (observe_total _ _ Hd2),
    (observe_is_split _ _ Hd2), E.
  split; [reflexivity|]. split; [reflexivity|].
  assert (Hok2 : layout_ok (size (consume_to s1 (first_run l1)))
                   (consume_layout (size s1) l1 (first_run l1))) by apply Hd2.
  destruct (consume_layout (size s1) l1 (first_run l1)) as [B r c|V v t f];
    [reflexivity|].
  cbn [stored layout_ok] in *. lia.
Qed.

Lemma two_consumes_drain_witness :
  regular split_state /\
  ijcringbuffer_is_empty (consume_to (consume_to split_state 7) 1) = true.
Proof.
  split; [exact regular_split_state|].
  exact (proj1 (two_consumes_drain split_state regular_split_state)).
Defined.

(** ** When [produce] accepts *)

Lemma produce_ret_place l s d n :
  describes l s -> 0 < n < modulus ->
  produce_ret s d n =
  match place (size s) l n with Nowhere => 0 | _ => 1 end.
Proof.
  intros Hd Hn. unfold produce_ret, value.
  rewrite (produce_on_layout _ _ d _ Hd Hn).
  destruct (place (size s) l n); reflexivity.
Qed.

(** X7: in regular use [produce] of [n] bytes, [0 < n], returns 1 exactly
    when the bytes fit in one piece: in an empty buffer when [n <= size];
    in an unsplit buffer behind the stored bytes or, failing that, before
    them; in a split buffer between the front run and the tail run. It
    never accepts more than the free bytes. *)
Theorem produce_accepts_what_fits s d n :
  regular s -> 0 < n < modulus ->
  let total := value (ijcringbuffer_consumeable_size s) in
  let continuous := value (ijcringbuffer_consumeable_size_continuous s) in
  let first := fst (ijcringbuffer_peek s) in
  (produce_ret s d n = 1 <->
   if ijcringbuffer__is_split s then
     if read_cursor s =? wrap_cursor s then total + n <= size s
     else (total - continuous) + n <= first
   else if ijcringbuffer_is_empty s then n <= size s
   else first + total + n <= size s \/ n <= first) /\
  (produce_ret s d n = 1 -> total + n <= size s).
Proof.
  intros Hs Hn. destruct (regular_describes s Hs) as [l Hd]. cbv zeta.
  assert (Hd' := produce_describes _ _ d _ Hd Hn).
  assert (Hok' : layout_ok (size (produce_to s d n))
                   (produce_layout (size s) l n)) by apply Hd'.
  pose proof (layout_stored_bounds _ _ Hok') as Hb'.
  assert (Hsz : size (produce_to s d n) = size s)
    by apply (exec_geometry s (ProduceCall d n)).
  rewrite Hsz in Hb'.
  rewrite (produce_ret_place _ _ _ _ Hd Hn), (observe_total _ _ Hd),
    (observe_continuous _ _ Hd), (observe_peek _ _ Hd),
    (observe_is_split _ _ Hd), (observe_is_empty _ _ Hd).
  assert (Hok : layout_ok (size s) l) by apply Hd.
  split.
  - destruct l as [B r c|V v t f];
      cbn [is_split_layout stored first_run place layout_ok] in *.
    + destruct Hok as (_ & Hr & Hc & Hrc).
      destruct (Z.eqb_spec c 0) as [->|Hc0]; cbn [andb].
      * destruct (Z.ltb_spec 0 r); cbn [andb].
        -- destruct (Z.leb_spec n (size s)); split; intros; lia || discriminate.
        -- destruct (Z.leb_spec (r + 0 + n) (size s));
             [split; intros; lia|].
           destruct (Z.leb_spec n r); split; intros; lia || discriminate.
      * destruct (Z.leb_spec (r + c + n) (size s));
          [split; intros; lia|].
        destruct (Z.leb_spec n r); split; intros; lia || discriminate.
    + destruct (observe_at_wrap _ _ _ _ _ Hd) as [E _]. rewrite E.
      destruct (Z.eqb_spec t 0) as [->|Hnz].
      * destruct (Z.leb_spec (f + n) (size s)); split; intros; lia || discriminate.
      * destruct (Z.leb_spec (f + n) ((v - t) mod size s));
          split; intros; lia || discriminate.
  - intros Hret.
    assert (Hp : place (size s) l n <> Nowhere).
    { intros E. rewrite E in Hret. discriminate. }
    rewrite (stored_produce_layout _ _ _ Hp) in Hb'. lia.
Qed.

Lemma produce_accepts_what_fits_witness :
  regular split_state /\ 0 < 1 < modulus /\
  produce_ret split_state hex 1 = 0.
Proof.
  assert (Hn : 0 < 1 < modulus) by (split; reflexivity).
  split; [exact regular_split_state|]. split; [exact Hn|].
  destruct (produce_accepts_what_fits split_state hex 1
              regular_split_state Hn) as [_ H].
  destruct (Z.eq_dec (produce_ret split_state hex 1) 1) as [E|N].
  - apply H in E. vm_compute in E. exfalso. apply E. reflexivity.
  - reflexivity.
Defined.

(** X8: in regular use the assertions of [produce] hold but in one case: the
    [produce] of exactly [size] bytes into an empty buffer whose write
    cursor is not at offset 0 fails the assertion after [write_to_front];
    the assertions of [consume] and of the two sizes always hold. *)
Theorem regular_assertions s d n :
  regular s -> 0 < n < modulus ->
  (asserts_ok (ijcringbuffer_produce s d n) = false <->
   ijcringbuffer_is_empty s = true /\
   Z.land (write_cursor s) (mask s) <> 0 /\ n = size s) /\
  asserts_ok (ijcringbuffer_consumeable_size s) = true /\
  asserts_ok (ijcringbuffer_consumeable_size_continuous s) = true /\
  asserts_ok (ijcringbuffer_is_full s) = true.
Proof.
  intros Hs Hn. destruct (regular_describes s Hs) as [l Hd].
  pose proof (describes_size _ _ Hd) as Hsz.
  unfold asserts_ok, ijcringbuffer_is_full, ijcringbuffer_consumeable_size,
    ijcringbuffer_consumeable_size_continuous.
  rewrite (observe_consumeable_size _ _ 0 Hd),
    (observe_consumeable_size _ _ 1 Hd).
  split; [|repeat split].
  rewrite (produce_on_layout _ _ d _ Hd Hn), (observe_is_empty _ _ Hd),
    (observe_write_offset _ _ Hd).
  assert (Hok : layout_ok (size s) l) by apply Hd.
  destruct (place (size s) l n) eqn:Hp; cbn [snd].
  - split; [discriminate|]. intros (He & Hw & ->). exfalso.
    apply place_at_cursor in Hp. apply Z.eqb_eq in He.
    destruct l as [B r c|V v t f]; cbn [stored layout_ok] in *.
    + subst c. rewrite Z.add_0_r, Z.mod_small in Hw by lia. lia.
    + lia.
  - apply place_at_front in Hp.
    destruct l as [B r c|V v t f]; [|contradiction].
    cbn [stored layout_ok] in *. destruct Hok as (_ & Hr & Hc & Hrc).
    rewrite negb_false_iff, Z.eqb_eq, Z.eqb_eq. split.
    + intros ->. destruct Hp as [(-> & Hr0 & _)|[_ Hnr]]; [|lia].
      rewrite Z.add_0_r, Z.mod_small by lia. repeat split; lia.
    + intros (_ & _ & E). exact E.
  - split; [discriminate|]. intros (He & Hw & ->). exfalso.
    apply Z.eqb_eq in He.
    destruct l as [B r c|V v t f]; cbn [stored layout_ok place] in *.
    + destruct Hok as (_ & Hr & Hc & Hrc). subst c.
      rewrite Z.add_0_r, Z.mod_small in Hw by lia.
      replace ((0 =? 0) && (0 <? r)) with true in Hp
        by (symmetry; apply andb_true_iff; split;
            [reflexivity | apply Z.ltb_lt; lia]).
      rewrite Z.leb_refl in Hp. discriminate.
    + lia.
Qed.

Lemma regular_assertions_witness :
  regular empty_at_1 /\ 0 < 8 < modulus /\
  asserts_ok (ijcringbuffer_produce empty_at_1 hex 8) = false.
Proof.
  assert (R : regular empty_at_1)
    by (apply regular_run; [apply regular_ring8 | reflexivity | reflexivity]).
  assert (Hn : 0 < 8 < modulus) by (split; reflexivity).
  split; [exact R|]. split; [exact Hn|].
  apply (regular_assertions empty_at_1 hex 8 R Hn).
  repeat split. discriminate.
Defined.

(** ** The buffer is a queue of bytes *)

Lemma bytes_at_length m off n : length (bytes_at m off n) = Z.to_nat n.
Proof. unfold bytes_at. rewrite length_map, length_seq. reflexivity. Qed.

Lemma bytes_at_nil m off n : n <= 0 -> bytes_at m off n = [].
Proof.
  intros H. unfold bytes_at. replace (Z.to_nat n) with 0%nat by lia.
  reflexivity.
Qed.

Lemma bytes_at_ext m m' off n :
  (forall i, off <= i < off + n -> m i = m' i) ->
  bytes_at m off n = bytes_at m' off n.
Proof.
  intros H. unfold bytes_at. apply map_ext_in. intros i Hi.
  apply in_seq in Hi. apply H. lia.
Qed.

Lemma map_seq_from {A : Type} (f : nat -> A) k n :
  map f (seq k n) = map (fun i => f (k + i)%nat) (seq 0 n).
Proof.
  revert k f. induction n as [|n IH]; intros k f; [reflexivity|].
  cbn [seq map]. rewrite Nat.add_0_r. f_equal.
  rewrite (IH (S k)), <- seq_shift, map_map.
  apply map_ext. intros i. f_equal. lia.
Qed.

Lemma bytes_at_app m off a b :
  0 <= a -> 0 <= b ->
  bytes_at m off (a + b) = bytes_at m off a ++ bytes_at m (off + a) b.
Proof.
  intros Ha Hb. unfold bytes_at.
  rewrite Z2Nat.inj_add, seq_app, map_app by lia. f_equal.
  rewrite map_seq_from. apply map_ext. intros i. f_equal. lia.
Qed.

Lemma bytes_at_skipn m off n c :
  0 <= n <= c ->
  skipn (Z.to_nat n) (bytes_at m off c) = bytes_at m (off + n) (c - n).
Proof.
  intros H. replace c with (n + (c - n)) at 1 by lia.
  rewrite bytes_at_app by lia.
  rewrite skipn_app, bytes_at_length, Nat.sub_diag, skipn_all2
    by (rewrite bytes_at_length; lia).
  reflexivity.
Qed.

Lemma bytes_at_memcpy_apart m off d n a k :
  a + k <= off \/ off + n <= a ->
  bytes_at (IJCRB_memcpy m off d n) a k = bytes_at m a k.
Proof.
  intros H. apply bytes_at_ext. intros i Hi. unfold IJCRB_memcpy.
  destruct (Z.leb_spec off i); destruct (Z.ltb_spec i (off + n));
    cbn [andb]; try reflexivity. lia.
Qed.

Lemma consume_data s n : data (consume_to s n) = data s.
Proof. unfold consume_to. rewrite consume_value. reflexivity. Qed.

Lemma read_all_contents l s :
  describes l s -> read_all s = contents (size s) l (data s).
Proof.
  intros Hd. unfold read_all, peek_bytes. cbv zeta.
  rewrite (observe_continuous _ _ Hd), (observe_peek _ _ Hd).
  assert (Hok : layout_ok (size s) l) by apply Hd.
  pose proof (layout_stored_bounds _ _ Hok) as Hb.
  assert (Hd1 := consume_describes _ _ (first_run l) Hd ltac:(lia)).
  rewrite (observe_continuous _ _ Hd1), (observe_peek _ _ Hd1), consume_data.
  destruct l as [B r c|V v t f]; cbn [first_run consume_layout contents].
  - rewrite Z.sub_diag.
    destruct (r + c =? size s); cbn [first_run];
      rewrite (bytes_at_nil _ _ 0), app_nil_r by lia; reflexivity.
  - destruct (Z.eqb_spec t 0) as [->|Hnz].
    + rewrite Z.sub_diag.
      destruct (f =? size s); cbn [first_run];
        rewrite (bytes_at_nil _ _ 0), app_nil_r by lia; reflexivity.
    + cbn [first_run]. rewrite Z.sub_diag. cbn [Z.eqb]. reflexivity.
Qed.

Lemma contents_consume sz l m n :
  layout_ok sz l -> 0 <= n <= first_run l ->
  contents sz (consume_layout sz l n) m
  = skipn (Z.to_nat n) (contents sz l m).
Proof.
  destruct l as [B r c|V v t f];
    cbn [layout_ok first_run consume_layout contents].
  - intros (_ & Hr & Hc & Hrc) Hn. rewrite bytes_at_skipn by lia.
    destruct (Z.eqb_spec (r + n) sz) as [E|N]; cbn [contents]; [|reflexivity].
    rewrite !(bytes_at_nil _ _ (c - n)) by lia. reflexivity.
  - intros Hok.
    destruct (Z.eqb_spec t 0) as [->|Hnz]; intros Hn.
    + destruct Hok as (_ & Hv & _ & Hf & _). cbn [app].
      rewrite bytes_at_skipn by lia.
      destruct (Z.eqb_spec n sz) as [E|N]; cbn [contents]; [|reflexivity].
      rewrite !(bytes_at_nil _ _ (f - n)) by lia. reflexivity.
    + destruct (split_tail_fits _ _ _ _ _ Hok Hnz)
        as (Ht & Hf & Htf & Hr & Hfr & Hrt).
      cbn [contents].
      rewrite skipn_app, bytes_at_length, bytes_at_skipn by lia.
      replace (Z.to_nat n - Z.to_nat t)%nat with 0%nat by lia.
      cbn [skipn].
      destruct (Z.eqb_spec (t - n) 0) as [E|N].
      * rewrite (bytes_at_nil _ _ (t - n)) by lia. reflexivity.
      * f_equal. f_equal.
        destruct Hok as (_ & Hv & _ & _ & Hfit).
        destruct Hfit as [E|[[Htv Hfv]|[-> Hft]]]; [lia| |].
        -- rewrite !Z.mod_small by lia. lia.
        -- replace (0 - (t - n)) with ((sz - t + n) + (-1) * sz) by lia.
           replace (0 - t) with ((sz - t) + (-1) * sz) by lia.
           rewrite !Z_mod_plus_full, !Z.mod_small by lia. lia.
Qed.

Lemma produce_data l s d n :
  describes l s -> 0 < n < modulus ->
  data (produce_to s d n) =
  match place (size s) l n with
  | AtCursor => IJCRB_memcpy (data s) (Z.land (write_cursor s) (mask s)) d n
  | AtFront => IJCRB_memcpy (data s) 0 d n
  | Nowhere => data s
  end.
Proof.
  intros Hd Hn. unfold produce_to, value.
  rewrite (produce_on_layout _ _ d _ Hd Hn).
  destruct (place (size s) l n); reflexivity.
Qed.

Lemma contents_produce l s d n :
  describes l s -> 0 < n < modulus ->
  contents (size s) (produce_layout (size s) l n) (data (produce_to s d n))
  = match place (size s) l n with
    | Nowhere => contents (size s) l (data s)
    | _ => contents (size s) l (data s) ++ bytes_at d 0 n
    end.
Proof.
  intros Hd Hn. rewrite (produce_data _ _ _ _ Hd Hn).
  pose proof (observe_write_offset _ _ Hd) as Hmw.
  assert (Hok : layout_ok (size s) l) by apply Hd.
  unfold produce_layout.
  destruct (place (size s) l n) eqn:Hp.
  - apply place_at_cursor in Hp. rewrite Hmw.
    destruct l as [B r c|V v t f]; cbn [layout_ok contents] in *.
    + destruct Hok as (_ & Hr & Hc & Hrc).
      rewrite Z.mod_small by lia.
      rewrite bytes_at_app by lia. f_equal.
      * apply bytes_at_memcpy_apart. lia.
      * apply bytes_at_memcpy.
    + destruct (Z.eqb_spec t 0) as [->|Hnz].
      * destruct Hok as (_ & Hv & _ & Hf & _).
        rewrite Z.mod_small by lia. cbn [app].
        rewrite bytes_at_app by lia. f_equal.
        -- apply bytes_at_memcpy_apart. lia.
        -- apply bytes_at_memcpy.
      * destruct (split_tail_fits _ _ _ _ _ Hok Hnz)
          as (Ht & Hf & Htf & Hr & Hfr & Hrt).
        rewrite (Z.mod_small f) by lia.
        rewrite bytes_at_app, <- app_assoc by lia. f_equal.
        -- apply bytes_at_memcpy_apart. lia.
        -- f_equal.
           ++ apply bytes_at_memcpy_apart. lia.
           ++ apply bytes_at_memcpy.
  - apply place_at_front in Hp.
    destruct l as [B r c|V v t f]; [|contradiction].
    cbn [layout_ok contents] in *. destruct Hok as (_ & Hr & Hc & Hrc).
    assert (Ht : (if c =? 0 then []
                  else bytes_at (IJCRB_memcpy (data s) 0 d n) r c)
                 = bytes_at (data s) r c).
    { destruct (Z.eqb_spec c 0) as [->|Hc0].
      - rewrite bytes_at_nil by lia. reflexivity.
      - apply bytes_at_memcpy_apart. lia. }
    destruct (Z.eqb_spec (r + c) (size s)) as [E|N]; cbn [contents].
    + replace ((0 - c) mod size s) with r.
      * rewrite Ht, bytes_at_memcpy. reflexivity.
      * replace (0 - c) with (r + (-1) * size s) by lia.
        rewrite Z_mod_plus_full, Z.mod_small by lia. reflexivity.
    + replace ((r + c - c) mod size s) with r
        by (replace (r + c - c) with r by lia; rewrite Z.mod_small by lia;
            reflexivity).
      rewrite Ht, bytes_at_memcpy. reflexivity.
  - reflexivity.
Qed.

Lemma read_all_exec l s c :
  describes l s -> allowed s c -> nonempty c ->
  read_all (exec s c) = queue_step s (read_all s) c.
Proof.
  intros Hd Ha Hne. rewrite (read_all_contents _ _ Hd).
  destruct c as [|d n|n]; cbn [exec allowed nonempty queue_step] in *.
  - assert (Hd0 : describes (Unsplit 0 0 0) (ijcringbuffer_reset s)).
    { pose proof (describes_size _ _ Hd) as Hsz.
      split; [apply Hd|]. split.
      - cbn [layout_ok ijcringbuffer_reset size]. repeat split; try lia.
        apply Z.divide_0_r.
      - split; reflexivity. }
    rewrite (read_all_contents _ _ Hd0). reflexivity.
  - assert (Hn : 0 < n < modulus) by lia.
    assert (Hd' := produce_describes _ _ d _ Hd Hn).
    rewrite (read_all_contents _ _ Hd').
    replace (size (produce_to s d n)) with (size s)
      by (symmetry; apply (exec_geometry s (ProduceCall d n))).
    rewrite (contents_produce _ _ _ _ Hd Hn), (produce_ret_place _ _ _ _ Hd Hn).
    destruct (place (size s) l n); reflexivity.
  - rewrite (observe_continuous _ _ Hd) in Ha.
    assert (Hd' := consume_describes _ _ n Hd Ha).
    rewrite (read_all_contents _ _ Hd'), consume_data.
    replace (size (consume_to s n)) with (size s)
      by (symmetry; apply (exec_geometry s (ConsumeCall n))).
    apply contents_consume; [apply Hd | exact Ha].
Qed.

(** X9: in regular use a [produce] that returns 1 appends its bytes to what
    a reader gets, behind all the bytes stored before; a [produce] that
    returns 0 leaves what a reader gets as it was. No stored byte is
    overwritten. *)
Theorem produce_appends s d n :
  regular s -> 0 < n < modulus ->
  read_all (produce_to s d n) =
  if produce_ret s d n =? 1 then read_all s ++ bytes_at d 0 n
  else read_all s.
Proof.
  intros Hs Hn. destruct (regular_describes s Hs) as [l Hd].
  apply (read_all_exec l s (ProduceCall d n) Hd); cbn [allowed nonempty]; lia.
Qed.

Lemma produce_appends_witness :
  regular split_state /\ 0 < 1 < modulus /\
  read_all (produce_to (consume_to split_state 3) hex 1)
  = read_all (consume_to split_state 3) ++ bytes_at hex 0 1.
Proof.
  assert (Hn : 0 < 1 < modulus) by (split; reflexivity).
  assert (R : regular (consume_to split_state 3)).
  { apply (regular_call split_state (ConsumeCall 3));
      [exact regular_split_state | split; vm_compute; discriminate | exact I]. }
  split; [exact regular_split_state|]. split; [exact Hn|].
  exact (produce_appends (consume_to split_state 3) hex 1 R Hn).
Defined.

(** X10: in regular use [consume] of [n] bytes, [n] at most the continuous
    size, drops the first [n] bytes of what a reader gets and keeps the
    rest in order. *)
Theorem consume_drops s n :
  regular s ->
  0 <= n <= value (ijcringbuffer_consumeable_size_continuous s) ->
  read_all (consume_to s n) = skipn (Z.to_nat n) (read_all s).
Proof.
  intros Hs Hn. destruct (regular_describes s Hs) as [l Hd].
  apply (read_all_exec l s (ConsumeCall n) Hd); [exact Hn | exact I].
Qed.

Lemma consume_drops_witness :
  regular split_state /\
  0 <= 3 <= value (ijcringbuffer_consumeable_size_continuous split_state) /\
  read_all (consume_to split_state 3) = skipn 3 (read_all split_state).
Proof.
  assert (Hn : 0 <= 3 <=
               value (ijcringbuffer_consumeable_size_continuous split_state))
    by (split; vm_compute; discriminate).
  split; [exact regular_split_state|]. split; [exact Hn|].
  exact (consume_drops split_state 3 regular_split_state Hn).
Defined.

(** X11: in regular use the total consumable size is the number of bytes a
    reader gets, and the bytes at the pointer of [peek] are the first of
    them. *)
Theorem read_all_has_total_size s :
  regular s ->
  Z.of_nat (length (read_all s)) = value (ijcringbuffer_consumeable_size s) /\
  peek_bytes s (value (ijcringbuffer_consumeable_size_continuous s))
  = firstn (Z.to_nat (value (ijcringbuffer_consumeable_size_continuous s)))
      (read_all s).
Proof.
  intros Hs. destruct (regular_describes s Hs) as [l Hd]. split.
  - rewrite (read_all_contents _ _ Hd), (observe_total _ _ Hd).
    assert (Hok : layout_ok (size s) l) by apply Hd.
    destruct l as [B r c|V v t f]; cbn [contents stored layout_ok] in *.
    + rewrite bytes_at_length. lia.
    + rewrite length_app, bytes_at_length.
      destruct (Z.eqb_spec t 0) as [->|Hnz].
      * cbn [length]. lia.
      * rewrite bytes_at_length. lia.
  - unfold read_all. cbv zeta.
    set (c := value (ijcringbuffer_consumeable_size_continuous s)).
    assert (E : length (peek_bytes s c) = Z.to_nat c)
      by apply bytes_at_length.
    rewrite <- E, firstn_app, firstn_all, Nat.sub_diag.
    cbn [firstn]. rewrite app_nil_r. reflexivity.
Qed.

Lemma read_all_has_total_size_witness :
  regular split_state /\
  Z.of_nat (length (read_all split_state)) = 8.
Proof.
  split; [exact regular_split_state|].
  exact (proj1 (read_all_has_total_size split_state regular_split_state)).
Defined.

Lemma queue_run_regular s cs :
  regular s -> allowed_allb s cs = true -> forallb nonemptyb cs = true ->
  read_all (run s cs) = queue_run s (read_all s) cs.
Proof.
  revert s. induction cs as [|c cs IH]; intros s Hs Ha Hne; [reflexivity|].
  cbn [allowed_allb forallb] in *.
  apply andb_true_iff in Ha. destruct Ha as [Hc Hcs].
  apply andb_true_iff in Hne. destruct Hne as [Hn Hns].
  apply allowedb_allowed in Hc. apply nonemptyb_nonempty in Hn.
  destruct (regular_describes s Hs) as [l Hd].
  cbn [run fold_left queue_run]. rewrite <- (read_all_exec _ _ _ Hd Hc Hn).
  apply (IH (exec s c)); [|exact Hcs|exact Hns].
  apply regular_call; assumption.
Qed.

(** X12: a buffer in regular use is a queue of bytes: after any run of
    allowed calls on a buffer that [ijcringbuffer_init] accepted, with a
    capacity of at most 2^29 and no [produce] of zero bytes, a reader
    gets the bytes of the accepted [produce] calls that no [consume] or
    [reset] dropped, in the order they were written. *)
Theorem buffer_is_a_queue d data_size cs :
  0 <= data_size <= 2 ^ 29 ->
  asserts_ok (ijcringbuffer_init d data_size) = true ->
  allowed_allb (value (ijcringbuffer_init d data_size)) cs = true ->
  forallb nonemptyb cs = true ->
  read_all (run (value (ijcringbuffer_init d data_size)) cs)
  = queue_run (value (ijcringbuffer_init d data_size)) [] cs.
Proof.
  intros Hsz Ha Hcs Hne.
  assert (R : regular (value (ijcringbuffer_init d data_size)))
    by (apply regular_init; assumption).
  rewrite (queue_run_regular _ _ R Hcs Hne). f_equal.
  destruct (regular_describes _ R) as [l Hd].
  assert (E : Z.of_nat (length (read_all (value (ijcringbuffer_init d data_size)))) = 0).
  { rewrite (read_all_contents _ _ Hd).
    assert (Hok : layout_ok (size (value (ijcringbuffer_init d data_size))) l)
      by apply Hd.
    assert (T0 : stored l = 0).
    { apply Z.eqb_eq. rewrite <- (observe_is_empty _ _ Hd). reflexivity. }
    destruct l as [B r c|V v t f]; cbn [contents stored layout_ok] in *.
    - rewrite bytes_at_length. lia.
    - lia. }
  destruct (read_all (value (ijcringbuffer_init d data_size)));
    [reflexivity | discriminate E].
Qed.

Lemma buffer_is_a_queue_witness :
  let cs := [ProduceCall hex 6; ConsumeCall 4; ProduceCall (shift hex 6) 3;
             ProduceCall hex 5; ConsumeCall 2; ProduceCall hex 1] in
  read_all (run (value (ijcringbuffer_init zeroes 8)) cs)
  = queue_run (value (ijcringbuffer_init zeroes 8)) [] cs.
Proof.
  refine (buffer_is_a_queue zeroes 8 _ _ _ _ _).
  - split; vm_compute; discriminate.
  - reflexivity.
  - vm_compute. reflexivity.
  - reflexivity.
Defined.

Lemma exec_storage s c :
  regular s -> allowed s c -> nonempty c ->
  forall i, i < 0 \/ size s <= i -> data (exec s c) i = data s i.
Proof.
  intros Hs Ha Hne i Hi. destruct c as [|d n|n]; cbn [exec allowed nonempty] in *.
  - reflexivity.
  - destruct (regular_produce_all_or_nothing s d n Hs ltac:(lia))
      as [E|(off & Ho & Hon & _ & E & _)].
    + unfold produce_to. rewrite E. reflexivity.
    + rewrite E. unfold IJCRB_memcpy.
      destruct (Z.leb_spec off i); destruct (Z.ltb_spec i (off + n));
        cbn [andb]; try reflexivity; lia.
  - apply (f_equal (fun m => m i)), consume_data.
Qed.

(** X13: in regular use no run of calls writes outside the storage handed to
    [ijcringbuffer_init]: the bytes below [data] and from [data + size]
    on are after the run what they were before it, and the capacity and
    the mask are never changed. *)
Theorem run_keeps_to_storage s cs :
  regular s -> allowed_allb s cs = true -> forallb nonemptyb cs = true ->
  size (run s cs) = size s /\ mask (run s cs) = mask s /\
  forall i, i < 0 \/ size s <= i -> data (run s cs) i = data s i.
Proof.
  revert s. induction cs as [|c cs IH]; intros s Hs Ha Hne.
  - repeat split; reflexivity.
  - cbn [allowed_allb forallb] in *.
    apply andb_true_iff in Ha. destruct Ha as [Hc Hcs].
    apply andb_true_iff in Hne. destruct Hne as [Hn Hns].
    apply allowedb_allowed in Hc. apply nonemptyb_nonempty in Hn.
    destruct (exec_geometry s c) as [Es Em].
    destruct (IH (exec s c) (regular_call s c Hs Hc Hn) Hcs Hns)
      as (Hsz & Hm & Hdata).
    cbn [run fold_left]. fold (run (exec s c) cs).
    split; [congruence|]. split; [congruence|].
    intros i Hi. rewrite Hdata by (rewrite Es; exact Hi).
    apply exec_storage; assumption.
Qed.

Lemma run_keeps_to_storage_witness :
  let cs := [ProduceCall hex 6; ConsumeCall 4; ProduceCall hex 3;
             ProduceCall hex 5; ConsumeCall 2; ResetCall; ProduceCall hex 8] in
  data (run ring8 cs) 8 = data ring8 8.
Proof.
  refine (proj2 (proj2 (run_keeps_to_storage ring8 _ regular_ring8 _ _)) 8 _).
  - vm_compute. reflexivity.
  - reflexivity.
  - right. vm_compute. discriminate.
Defined.

(** X14: in regular use a reader that takes the pointer of [peek] and the
    continuous size reads inside the storage: the run of bytes starts at
    an offset of at least 0 and ends at or before [size]. *)
Theorem reader_stays_in_storage s :
  regular s ->
  0 <= fst (ijcringbuffer_peek s) /\
  fst (ijcringbuffer_peek s)
  + value (ijcringbuffer_consumeable_size_continuous s) <= size s.
Proof.
  intros Hs. destruct (regular_describes s Hs) as [l Hd].
  pose proof (describes_size _ _ Hd) as Hsz.
  rewrite (observe_peek _ _ Hd), (observe_continuous _ _ Hd).
  assert (Hok : layout_ok (size s) l) by apply Hd.
  destruct l as [B r c|V v t f]; cbn [layout_ok first_run] in *.
  - lia.
  - destruct (Z.eqb_spec t 0) as [->|Hnz]; [lia|].
    destruct Hok as (_ & Hv & Ht & Hf & [H0|[H1|H2]]); [lia| |].
    + rewrite Z.mod_small by lia. lia.
    + destruct H2 as [-> H2].
      replace (0 - t) with (- t) by lia.
      pose proof (Z.mod_pos_bound (- t) (size s) ltac:(lia)) as Hb.
      assert (E : (- t) mod size s = size s - t).
      { symmetry. apply (Z.mod_unique _ _ (-1)); lia. }
      rewrite E. lia.
Qed.

Lemma reader_stays_in_storage_witness :
  regular split_state /\
  fst (ijcringbuffer_peek split_state)
  + value (ijcringbuffer_consumeable_size_continuous split_state)
  <= size split_state.
Proof.
  split; [exact regular_split_state|].
  exact (proj2 (reader_stays_in_storage split_state regular_split_state)).
Defined.

(** ** A [produce] of zero bytes *)

Lemma memcpy_nothing dst off src i : IJCRB_memcpy dst off src 0 i = dst i.
Proof.
  unfold IJCRB_memcpy.
  destruct (Z.leb_spec off i); destruct (Z.ltb_spec i (off + 0));
    cbn [andb]; try reflexivity; lia.
Qed.

Lemma describes_write_cursor l s :
  describes l s -> wrap (write_cursor s) = write_cursor s.
Proof.
  intros (_ & _ & Hcur).
  destruct l; [destruct Hcur as (_ & ->)|destruct Hcur as (_ & _ & ->)];
    apply Z.mod_mod; rewrite modulus_val; lia.
Qed.

Lemma write_nothing_at_cursor l s d :
  describes l s ->
  let s' := snd (write_at_cursor s d 0) in
  fst (write_at_cursor s d 0) = 1 /\
  (forall i, data s' i = data s i) /\
  read_cursor s' = read_cursor s /\
  write_cursor s' = write_cursor s /\ wrap_cursor s' = wrap_cursor s.
Proof.
  intros Hd. unfold write_at_cursor.
  cbn [fst snd data read_cursor write_cursor wrap_cursor set_data
       set_write_cursor].
  split; [reflexivity|]. split; [intros i; apply memcpy_nothing|].
  split; [reflexivity|]. split; [|reflexivity].
  unfold uadd. rewrite Z.add_0_r. apply (describes_write_cursor _ _ Hd).
Qed.

(** X15: in regular use a [produce] of zero bytes returns 1, leaves the
    stored bytes and the read cursor as they are, and does nothing else
    but in two situations of an unsplit buffer: the buffer is empty with
    its write cursor not at offset 0, or it holds bytes up to the end of
    the storage (write cursor at offset 0). There it splits the buffer
    around a front run of zero bytes: the wrap cursor takes the place of
    the write cursor, and the write cursor is left at offset 0 more than
    [size] ahead of the read cursor. *)
Theorem produce_of_nothing s d :
  regular s ->
  let s' := produce_to s d 0 in
  let masked_write := Z.land (write_cursor s) (mask s) in
  produce_ret s d 0 = 1 /\
  (forall i, data s' i = data s i) /\
  read_cursor s' = read_cursor s /\
  if negb (ijcringbuffer__is_split s)
     && ((truthy masked_write && ijcringbuffer_is_empty s)
         || (negb (truthy masked_write) && negb (ijcringbuffer_is_empty s)))
  then ijcringbuffer__is_split s' = true /\
       wrap_cursor s' = write_cursor s /\
       Z.land (write_cursor s') (mask s') = 0
  else write_cursor s' = write_cursor s /\ wrap_cursor s' = wrap_cursor s.
Proof.
  intros Hs. destruct (regular_describes s Hs) as [l Hd].
  pose proof (describes_size _ _ Hd) as Hsz.
  assert (Hcap : capacity 29 (size s) (mask s)) by apply Hd.
  pose proof (land_mask_range 29 _ _ Hcap (read_cursor s)) as Hrm.
  pose proof (land_mask_range 29 _ _ Hcap (write_cursor s)) as Hwm.
  pose proof (write_nothing_at_cursor _ _ d Hd) as Hback.
  cbv zeta in *. unfold produce_ret, produce_to.
  destruct (ijcringbuffer__is_split s) eqn:Hsp; cbn [negb andb].
  - assert (E : value (ijcringbuffer_produce s d 0) = write_at_cursor s d 0).
    { unfold ijcringbuffer_produce, bind, ret, value. rewrite Hsp. cbn [fst snd].
      match goal with |- context [?a >=? 0] =>
        replace (a >=? 0) with true; [reflexivity|]
      end.
      symmetry. apply geb_true.
      destruct (wrap_cursor s =? read_cursor s); cbn [fst].
      - destruct (truthy (Z.land (write_cursor s) (mask s))); [|lia].
        unfold usub, wrap. apply Z.mod_pos_bound. rewrite modulus_val. lia.
      - apply (land_mask_range 29 _ _ Hcap). }
    rewrite E. tauto.
  - destruct (truthy (Z.land (write_cursor s) (mask s))
              && ijcringbuffer_is_empty s
              || negb (truthy (Z.land (write_cursor s) (mask s)))
                 && negb (ijcringbuffer_is_empty s)) eqn:Hc.
    + assert (Hfp : front_path s 0 = true).
      { unfold front_path, auto_reset, back_closed. rewrite Hsp. cbn [negb andb].
        rewrite (geb_true (size s) 0) by lia.
        rewrite (geb_true (Z.land (read_cursor s) (mask s)) 0) by lia.
        rewrite !andb_true_r.
        destruct (truthy (Z.land (write_cursor s) (mask s)));
          destruct (ijcringbuffer_is_empty s); cbn in Hc |- *;
          try reflexivity; discriminate Hc. }
      rewrite (front_path_produce s d 0 Hfp).
      unfold write_to_front, bind, ret, value. cbn [fst snd].
      split; [reflexivity|]. split.
      { intros i. unfold split_to_front.
        cbn [data set_write_cursor set_data set_wrap_cursor].
        apply memcpy_nothing. }
      split; [reflexivity|].
      assert (Hl : exists B r c, l = Unsplit B r c).
      { rewrite (observe_is_split _ _ Hd) in Hsp.
        destruct l as [B r c|]; [eauto|discriminate Hsp]. }
      destruct Hl as (B & r & c & ->).
      split; [apply (split_to_front_is_split B r c); [exact Hd|lia]|].
      split; [reflexivity|].
      replace (mask (split_to_front s d 0)) with (mask s) by reflexivity.
      rewrite (split_to_front_offset s d 0
                 (capacity_weaken 29 31 _ _ ltac:(lia) Hcap)).
      apply Z.mod_0_l. lia.
    + assert (E : value (ijcringbuffer_produce s d 0) = write_at_cursor s d 0).
      { unfold ijcringbuffer_produce, check_front, bind, ret, value.
        rewrite Hsp. rewrite (geb_true (size s) 0) by lia.
        assert (Hu : (usub (size s) (Z.land (write_cursor s) (mask s)) >=? 0)
                     = true).
        { apply geb_true. unfold usub, wrap. apply Z.mod_pos_bound.
          rewrite modulus_val. lia. }
        rewrite Hu.
        destruct (truthy (Z.land (write_cursor s) (mask s)));
          destruct (ijcringbuffer_is_empty s); cbn in Hc |- *;
          try reflexivity; discriminate Hc. }
      rewrite E. tauto.
Qed.

Lemma produce_of_nothing_witness :
  regular empty_at_1 /\
  ijcringbuffer__is_split (produce_to empty_at_1 hex 0) = true /\
  wrap_cursor (produce_to empty_at_1 hex 0) = write_cursor empty_at_1.
Proof.
  assert (R : regular empty_at_1).
  { apply regular_run; [apply regular_ring8 | reflexivity | reflexivity]. }
  split; [exact R|].
  pose proof (produce_of_nothing empty_at_1 hex R) as (_ & _ & _ & H).
  split; [exact (proj1 H) | exact (proj1 (proj2 H))].
Defined.

(** ** A full buffer *)

Lemma place_when_full sz l n :
  0 < sz -> layout_ok sz l -> stored l = sz -> 0 < n ->
  place sz l n = Nowhere.
Proof.
  intros Hsz Hok Hst Hn.
  destruct l as [B r c|V v t f]; cbn [layout_ok stored place] in *.
  - destruct Hok as (_ & Hr & Hc & Hrc).
    destruct (Z.eqb_spec c 0); [lia|]. cbn [andb].
    destruct (Z.leb_spec (r + c + n) sz); [lia|].
    destruct (Z.leb_spec n r); [lia|reflexivity].
  - destruct Hok as (_ & Hv & Ht & Hf & Hfit).
    destruct (Z.eqb_spec t 0).
    + destruct (Z.leb_spec (f + n) sz); [lia|reflexivity].
    + destruct Hfit as [H0|[H1|[-> H2]]]; [lia|lia|].
      assert (E : (0 - t) mod sz = sz - t).
      { symmetry. apply (Z.mod_unique _ _ (-1)); lia. }
      rewrite E. destruct (Z.leb_spec (f + n) (sz - t)); [lia|reflexivity].
Qed.

(** X16: in regular use a full buffer takes nothing: when [is_full] holds,
    every [produce] of at least one byte returns 0 and leaves the buffer
    as it is, whatever the place of the cursors; the buffer is not empty,
    and its continuous size is not 0, so that a reader can make room. *)
Theorem full_buffer_takes_nothing s d n :
  regular s -> 0 < n < modulus ->
  value (ijcringbuffer_is_full s) = true ->
  value (ijcringbuffer_produce s d n) = (0, s) /\
  ijcringbuffer_is_empty s = false /\
  0 < value (ijcringbuffer_consumeable_size_continuous s).
Proof.
  intros Hs Hn Hfull. destruct (regular_describes s Hs) as [l Hd].
  pose proof (describes_size _ _ Hd) as Hsz.
  assert (Hok : layout_ok (size s) l) by apply Hd.
  assert (Hst : stored l = size s).
  { rewrite <- (observe_total _ _ Hd). apply Z.eqb_eq. exact Hfull. }
  split; [|split].
  - rewrite (produce_on_layout _ _ d _ Hd Hn).
    rewrite (place_when_full (size s) l n); [reflexivity|lia|exact Hok|exact Hst|lia].
  - rewrite (observe_is_empty _ _ Hd). apply Z.eqb_neq. lia.
  - rewrite (observe_continuous _ _ Hd).
    destruct l as [B r c|V v t f]; cbn [layout_ok stored first_run] in *; [lia|].
    destruct (Z.eqb_spec t 0); lia.
Qed.

Lemma full_buffer_takes_nothing_witness :
  regular full8 /\ 0 < 1 < modulus /\
  value (ijcringbuffer_is_full full8) = true /\
  value (ijcringbuffer_produce full8 hex 1) = (0, full8).
Proof.
  assert (R : regular full8).
  { apply regular_run; [apply regular_ring8 | reflexivity | reflexivity]. }
  assert (Hn : 0 < 1 < modulus) by (split; reflexivity).
  assert (Hf : value (ijcringbuffer_is_full full8) = true) by reflexivity.
  split; [exact R|]. split; [exact Hn|]. split; [exact Hf|].
  exact (proj1 (full_buffer_takes_nothing full8 hex 1 R Hn Hf)).
Defined.
